(** * filmyfly-astro: the API client and the sitemap generator

    A shallow embedding of [src/lib/api.ts] (the typed fetch client) and of
    [src/pages/sitemap.xml.ts] (the sitemap endpoint), with the properties
    stated for them.

    Conventions of the embedding.
    - A JavaScript string is a [string]; text outside ASCII is carried by its
      UTF-8 bytes, none of which is matched by a pattern of the program.
    - A JavaScript number that the program only counts with or prints is a
      [nat] (page counters, HTTP status) or a [Z] (caller supplied numbers,
      identifiers), printed in decimal as a template literal prints an
      integer.
    - An [async] function is a computation in the monad [M]: it threads the
      log of the requests sent so far and ends by returning, by throwing, or
      by running out of fuel (the only loop of the program is the pagination
      loop of the sitemap).
    - Console output is not part of the model. *)

From Stdlib Require Import String Ascii List Arith ZArith Bool Lia DecimalString.
From Stdlib Require NArith DecimalNat DecimalPos DecimalFacts Finite.
Import ListNotations.
Open Scope string_scope.

(** ** The JavaScript runtime, as far as the program uses it *)

Module Js.

(** What a [throw] carries: an [Error] object with its message, or any
    other value. *)
Inductive thrown : Type :=
| ErrorObject (name message : string)
| OtherValue.

(** How a computation ends. *)
Inductive completion (A : Type) : Type :=
| Returns (a : A)
| Throws (e : thrown)
| OutOfFuel.
Arguments Returns {A} a.
Arguments Throws {A} e.
Arguments OutOfFuel {A}.

(** The request log: the URLs handed to [fetch], oldest first. *)
Definition Log : Type := list string.

Definition M (A : Type) : Type := Log -> completion A * Log.

Definition ret {A} (a : A) : M A := fun log => (Returns a, log).

Definition throw {A} (e : thrown) : M A := fun log => (Throws e, log).

Definition diverge {A} : M A := fun log => (OutOfFuel, log).

Definition bind {A B} (m : M A) (k : A -> M B) : M B :=
  fun log =>
    match m log with
    | (Returns a, log') => k a log'
    | (Throws e, log') => (Throws e, log')
    | (OutOfFuel, log') => (OutOfFuel, log')
    end.

(** [try { m } catch (error) { handler error }] *)
Definition try_catch {A} (m : M A) (handler : thrown -> M A) : M A :=
  fun log =>
    match m log with
    | (Throws e, log') => handler e log'
    | other => other
    end.

(** [while (cond) { body }] over the variables [S] the loop assigns. *)
Fixpoint while {S} (fuel : nat) (cond : S -> bool) (body : S -> M S) (s : S) : M S :=
  match fuel with
  | O => diverge
  | Datatypes.S fuel' =>
      if cond s then bind (body s) (while fuel' cond body) else ret s
  end.

(** A value that a failing built-in hands to [await]: lifted into [M]. *)
Definition settle {A} (r : thrown + A) : M A :=
  match r with
  | inl e => throw e
  | inr a => ret a
  end.

(** *** fetch *)

Section Fetch.
Context {J : Type}.

(** A [Response]: its status, and what [res.json()] settles to (the parsed
    body, or the fault of a body that is not JSON). *)
Record Response : Type := { status : nat; body : thrown + J }.

(** What [fetch(url)] settles to: a rejection (network failure) or a
    response, whatever its status. *)
Inductive FetchResult : Type :=
| Rejects (e : thrown)
| Resolves (r : Response).

(** [res.ok]: the status is in the range 200-299. *)
Definition ok (r : Response) : bool := ((200 <=? status r)%nat && (status r <=? 299)%nat)%bool.

Definition fetch (remote : string -> FetchResult) (url : string) : M Response :=
  fun log =>
    (match remote url with
     | Rejects e => Throws e
     | Resolves r => Returns r
     end, (log ++ [url])%list).

Definition json (r : Response) : M J := settle (body r).

End Fetch.
Arguments Response : clear implicits.
Arguments FetchResult : clear implicits.

(** *** Strings and numbers *)

(** Template-literal printing of an integer. *)
Definition string_of_nat (n : nat) : string := NilZero.string_of_uint (Nat.to_uint n).
Definition string_of_Z (z : Z) : string := NilZero.string_of_int (Z.to_int z).

(** [a || b] on an optional string: [undefined] and the empty string are falsy. *)
Definition or_else (a : option string) (b : string) : string :=
  match a with
  | Some (String c s) => String c s
  | _ => b
  end.

(** Truthiness of an optional string, as in [if (movie.thumbnail)]. *)
Definition truthy (a : option string) : bool :=
  match a with
  | Some (String _ _) => true
  | _ => false
  end.

(** [text.replace(/c/g, by)] for a pattern that is one literal character. *)
Fixpoint replace_all (c : ascii) (by_ : string) (text : string) : string :=
  match text with
  | EmptyString => EmptyString
  | String a rest =>
      if Ascii.eqb a c then by_ ++ replace_all c by_ rest
      else String a (replace_all c by_ rest)
  end.

(** [text.replace(/\/$/, '')]: one slash at the very end is removed. *)
Fixpoint strip_trailing_slash (text : string) : string :=
  match text with
  | EmptyString => EmptyString
  | String a rest =>
      match rest with
      | EmptyString => if Ascii.eqb a "/"%char then EmptyString else text
      | _ => String a (strip_trailing_slash rest)
      end
  end.

(** [text.split(sep)[0]] for a separator that is one character. *)
Fixpoint before_first (sep : ascii) (text : string) : string :=
  match text with
  | EmptyString => EmptyString
  | String a rest =>
      if Ascii.eqb a sep then EmptyString else String a (before_first sep rest)
  end.

End Js.

Import Js.

Notation "x <- m ;; k" := (bind m (fun x => k))
  (at level 61, m at next level, right associativity).

(** ** The data model of [api.ts] *)

Record Category : Type := {
  category_id : Z;
  category_name : string;
  category_slug : string;
  category_description : option string;
  category_count : option Z;           (* _count?: { movies } *)
  category_createdAt : string;
  category_updatedAt : string
}.

(** The optional [TrendingMovie] field, of type [any] and read nowhere, is
    left out. *)
Record Movie : Type := {
  id : Z;
  title : string;
  slug : string;
  description : option string;
  thumbnail : option string;
  genre : option string;
  languages : option string;
  duration : option string;
  releaseYear : option Z;
  cast : option string;
  sizes : option string;
  downloadUrl : option string;
  screenshot : option string;
  keywords : option string;
  categoryId : option Z;
  category : option Category;
  createdAt : string;
  updatedAt : string
}.

Record Pagination : Type := {
  page : nat;
  limit : nat;
  total : nat;
  totalPages : nat;
  hasNextPage : bool;
  hasPrevPage : bool
}.

Record APIResponse (T : Type) : Type := {
  success : bool;
  data : option T;
  error : option string;
  pagination : option Pagination
}.
Arguments success {T} _.
Arguments data {T} _.
Arguments error {T} _.
Arguments pagination {T} _.

(** The process environment read through [import.meta.env]. *)
Record Env : Type := {
  PUBLIC_API_URL : option string;
  PUBLIC_SITE_URL : option string
}.

(** ** [src/lib/api.ts] *)

Module Api.

(** What [searchMovies] resolves to: the parsed body of the response, or
    the object literal built in its [catch] block. *)
Inductive SearchResult (J : Type) : Type :=
| Parsed (json : J)
| Failure (success : bool) (error : string).
Arguments Parsed {J} json.
Arguments Failure {J} success error.

Section Client.

Variable env : Env.
(** The type of a parsed JSON body: the functions of this file never look
    inside it, their type annotations are erased. *)
Variable J : Type.
Variable remote : string -> FetchResult J.
(** The built-in [encodeURIComponent], which throws a [URIError] on a lone
    surrogate. *)
Variable encodeURIComponent : string -> thrown + string.

Definition API_BASE : string := or_else (PUBLIC_API_URL env) "http://localhost:8080/api".

(** A parameter with a default value: [page: number = 1]. *)
Definition defaulting (arg : option Z) (default : Z) : Z :=
  match arg with
  | Some v => v
  | None => default
  end.

Definition getHomePageData (page : option Z) : M J :=
  let page := defaulting page 1 in
  res <- fetch remote (API_BASE ++ "/home?page=" ++ string_of_Z page) ;;
  json <- json res ;;
  ret json.

Definition getMovies (page limit : option Z) : M J :=
  let page := defaulting page 1 in
  let limit := defaulting limit 20 in
  res <- fetch remote (API_BASE ++ "/movies?page=" ++ string_of_Z page
                         ++ "&limit=" ++ string_of_Z limit) ;;
  json <- json res ;;
  ret json.

Definition getTrendingMovies : M J :=
  res <- fetch remote (API_BASE ++ "/movies/trending") ;;
  json <- json res ;;
  ret json.

Definition getMovieBySlug (slug : string) : M J :=
  res <- fetch remote (API_BASE ++ "/movies/" ++ slug) ;;
  json <- json res ;;
  ret json.

Definition getCategories : M J :=
  res <- fetch remote (API_BASE ++ "/categories") ;;
  json <- json res ;;
  ret json.

Definition getCategoryBySlug (slug : string) (page limit : option Z) : M J :=
  let page := defaulting page 1 in
  let limit := defaulting limit 20 in
  res <- fetch remote (API_BASE ++ "/categories/" ++ slug ++ "?page=" ++ string_of_Z page
                         ++ "&limit=" ++ string_of_Z limit) ;;
  json <- json res ;;
  ret json.

Definition searchMovies (query : string) (page limit : option Z) : M (SearchResult J) :=
  let page := defaulting page 1 in
  let limit := defaulting limit 20 in
  try_catch
    (q <- settle (encodeURIComponent query) ;;
     res <- fetch remote (API_BASE ++ "/search?q=" ++ q ++ "&page=" ++ string_of_Z page
                            ++ "&limit=" ++ string_of_Z limit) ;;
     if negb (ok res) then
       throw (ErrorObject "Error" ("Search API returned " ++ string_of_nat (status res)))
     else
       json <- json res ;;
       ret (Parsed json))
    (fun error =>
       ret (Failure false
              match error with
              | ErrorObject _ message => message
              | OtherValue => "Failed to search movies"
              end)).

Definition getStaticPage (slug : string) : M J :=
  res <- fetch remote (API_BASE ++ "/static-pages/" ++ slug) ;;
  json <- json res ;;
  ret json.

Definition getPublicSettings : M J :=
  res <- fetch remote (API_BASE ++ "/astro-settings") ;;
  json <- json res ;;
  ret json.

(** The eight operations without a failure guard, as one family. *)
Inductive Operation : Type :=
| HomePageData (page : option Z)
| Movies (page limit : option Z)
| TrendingMovies
| MovieBySlug (slug : string)
| Categories
| CategoryBySlug (slug : string) (page limit : option Z)
| StaticPage (slug : string)
| PublicSettings.

Definition perform (op : Operation) : M J :=
  match op with
  | HomePageData p => getHomePageData p
  | Movies p l => getMovies p l
  | TrendingMovies => getTrendingMovies
  | MovieBySlug s => getMovieBySlug s
  | Categories => getCategories
  | CategoryBySlug s p l => getCategoryBySlug s p l
  | StaticPage s => getStaticPage s
  | PublicSettings => getPublicSettings
  end.

(** The resource of the upstream API that the specification assigns to
    each operation (its list of read-only resources), written from the
    specification and compared with the code below. *)
Definition spec_resource (op : Operation) : string :=
  match op with
  | HomePageData p => "/home?page=" ++ string_of_Z (defaulting p 1)
  | Movies p l =>
      "/movies?page=" ++ string_of_Z (defaulting p 1)
        ++ "&limit=" ++ string_of_Z (defaulting l 20)
  | TrendingMovies => "/movies/trending"
  | MovieBySlug s => "/movies/" ++ s
  | Categories => "/categories"
  | CategoryBySlug s p l =>
      "/categories/" ++ s ++ "?page=" ++ string_of_Z (defaulting p 1)
        ++ "&limit=" ++ string_of_Z (defaulting l 20)
  | StaticPage s => "/static-pages/" ++ s
  | PublicSettings => "/astro-settings"
  end.

End Client.

End Api.

(** ** [src/pages/sitemap.xml.ts] *)

Module Sitemap.

(** Line feed and double quote, which the template literals of the file
    contain. *)
Definition nl : string := String "010"%char EmptyString.
Definition dq : string := String "034"%char EmptyString.

(** What [fetchSitemapData] resolves to. [categoriesData.data] is declared
    optional ([data?: T]), so the value bound to [categories] is a list or
    [undefined]. *)
Record SitemapData : Type := {
  movies : list Movie;
  categories : option (list Category)
}.

(** The [Response] that [GET] constructs. *)
Record HttpReply : Type := {
  reply_status : nat;
  reply_headers : list (string * string);
  reply_body : string
}.

(** The variables assigned by the pagination loop. *)
Record LoopVars : Type := {
  allMovies : list Movie;
  page : nat;
  hasMore : bool
}.

Record StaticPage : Type := {
  path : string;
  priority : string;
  changefreq : string
}.

(** [x && ...] on an optional array: an array, even an empty one, is truthy. *)
Definition defined {A} (x : option A) : bool :=
  match x with
  | Some _ => true
  | None => false
  end.

(** [x.length] under the guard [x && ...]. *)
Definition length_of {A} (x : option (list A)) : nat :=
  match x with
  | Some l => List.length l
  | None => 0
  end.

(** [allMovies.concat(x)] under the same guard. *)
Definition concat_data {A} (acc : list A) (x : option (list A)) : list A :=
  match x with
  | Some l => (acc ++ l)%list
  | None => acc
  end.

Definition escapeXml (text : string) : string :=
  replace_all "'" "&apos;"
    (replace_all "034" "&quot;"
       (replace_all ">" "&gt;"
          (replace_all "<" "&lt;"
             (replace_all "&" "&amp;" text)))).

Section Endpoint.

Variable env : Env.
Variable moviesApi : string -> FetchResult (APIResponse (list Movie)).
Variable categoriesApi : string -> FetchResult (APIResponse (list Category)).
(** [new Date().toISOString()] at the time of the request. *)
Variable now : string.

Definition API_BASE : string := or_else (PUBLIC_API_URL env) "http://localhost:8080/api".

Definition limit : nat := 500.

(** One turn of [while (hasMore) { ... }]. *)
Definition loop_body (v : LoopVars) : M LoopVars :=
  moviesResponse <- fetch moviesApi (API_BASE ++ "/movies?page=" ++ string_of_nat (page v)
                                       ++ "&limit=" ++ string_of_nat limit) ;;
  moviesData <- json moviesResponse ;;
  if (success moviesData && defined (data moviesData)
      && (0 <? length_of (data moviesData))%nat)%bool
  then
    let allMovies' := concat_data (allMovies v) (data moviesData) in
    if match pagination moviesData with
       | Some p => hasNextPage p
       | None => false
       end
    then ret {| allMovies := allMovies'; page := page v + 1; hasMore := hasMore v |}
    else ret {| allMovies := allMovies'; page := page v; hasMore := false |}
  else ret {| allMovies := allMovies v; page := page v; hasMore := false |}.

(** The loop alone, from its initial assignments. *)
Definition fetchAllMovies (fuel : nat) : M LoopVars :=
  while fuel hasMore loop_body {| allMovies := []; page := 1; hasMore := true |}.

Definition fetchSitemapData (fuel : nat) : M SitemapData :=
  try_catch
    (v <- fetchAllMovies fuel ;;
     categoriesResponse <- fetch categoriesApi (API_BASE ++ "/categories") ;;
     categoriesData <- json categoriesResponse ;;
     let categories := if success categoriesData then data categoriesData else Some [] in
     ret {| movies := allMovies v; categories := categories |})
    (fun error => ret {| movies := []; categories := Some [] |}).

Definition staticPages : list StaticPage :=
  [ {| path := "/page/privacy-policy"; priority := "0.7"; changefreq := "monthly" |};
    {| path := "/page/contact-us"; priority := "0.7"; changefreq := "monthly" |};
    {| path := "/page/about-us"; priority := "0.7"; changefreq := "monthly" |};
    {| path := "/page/dmca"; priority := "0.7"; changefreq := "monthly" |};
    {| path := "/page/how-to-download-movie"; priority := "0.8"; changefreq := "monthly" |};
    {| path := "/search"; priority := "0.6"; changefreq := "weekly" |} ].

(** [array.forEach(x => { sitemap += f x })] *)
Definition forEach {A} (array : list A) (f : string -> A -> string) (sitemap : string) : string :=
  fold_left f array sitemap.

(** The fault of calling a method on [undefined]. *)
Definition TypeError_undefined (property : string) : thrown :=
  ErrorObject "TypeError"
    ("Cannot read properties of undefined (reading '" ++ property ++ "')").

Definition GET (fuel : nat) : M HttpReply :=
  d <- fetchSitemapData fuel ;;
  let siteUrl := or_else (PUBLIC_SITE_URL env) "https://filmyfly.work" in
  let baseUrl := strip_trailing_slash siteUrl in
  let currentDate := before_first "T" now in
  let sitemap :=
    "<?xml version=" ++ dq ++ "1.0" ++ dq ++ " encoding=" ++ dq ++ "UTF-8" ++ dq ++ "?>" ++ nl
    ++ "<urlset xmlns=" ++ dq ++ "http://www.sitemaps.org/schemas/sitemap/0.9" ++ dq ++ nl
    ++ "        xmlns:image=" ++ dq ++ "http://www.google.com/schemas/sitemap-image/1.1" ++ dq ++ nl
    ++ "        xmlns:news=" ++ dq ++ "http://www.google.com/schemas/sitemap-news/0.9" ++ dq
    ++ ">" ++ nl in
  let sitemap := sitemap
    ++ "  <url>" ++ nl
    ++ "    <loc>" ++ baseUrl ++ "/</loc>" ++ nl
    ++ "    <lastmod>" ++ currentDate ++ "</lastmod>" ++ nl
    ++ "    <changefreq>daily</changefreq>" ++ nl
    ++ "    <priority>1.0</priority>" ++ nl
    ++ "  </url>" ++ nl in
  let sitemap :=
    forEach staticPages (fun sitemap page => sitemap
      ++ "  <url>" ++ nl
      ++ "    <loc>" ++ baseUrl ++ path page ++ "</loc>" ++ nl
      ++ "    <lastmod>" ++ currentDate ++ "</lastmod>" ++ nl
      ++ "    <changefreq>" ++ changefreq page ++ "</changefreq>" ++ nl
      ++ "    <priority>" ++ priority page ++ "</priority>" ++ nl
      ++ "  </url>" ++ nl) sitemap in
  sitemap <-
    match categories d with
    | None => throw (TypeError_undefined "forEach")
    | Some categories =>
        ret (forEach categories (fun sitemap category => sitemap
          ++ "  <url>" ++ nl
          ++ "    <loc>" ++ baseUrl ++ "/category/" ++ string_of_Z (category_id category)
                         ++ "/" ++ category_slug category ++ "</loc>" ++ nl
          ++ "    <lastmod>" ++ currentDate ++ "</lastmod>" ++ nl
          ++ "    <changefreq>weekly</changefreq>" ++ nl
          ++ "    <priority>0.9</priority>" ++ nl
          ++ "  </url>" ++ nl) sitemap)
    end ;;
  let sitemap :=
    forEach (movies d) (fun sitemap movie =>
      let sitemap := sitemap
        ++ "  <url>" ++ nl
        ++ "    <loc>" ++ baseUrl ++ "/" ++ slug movie ++ "</loc>" ++ nl
        ++ "    <lastmod>" ++ currentDate ++ "</lastmod>" ++ nl
        ++ "    <changefreq>weekly</changefreq>" ++ nl
        ++ "    <priority>0.8</priority>" in
      let sitemap :=
        match thumbnail movie with
        | Some (String c t) =>
            let escapedTitle := escapeXml (title movie) in
            let escapedThumbnail := escapeXml (String c t) in
            sitemap ++ nl
            ++ "    <image:image>" ++ nl
            ++ "      <image:loc>" ++ escapedThumbnail ++ "</image:loc>" ++ nl
            ++ "      <image:title>" ++ escapedTitle ++ "</image:title>" ++ nl
            ++ "    </image:image>"
        | _ => sitemap
        end in
      sitemap ++ nl
      ++ "  </url>" ++ nl) sitemap in
  let sitemap := sitemap ++ "</urlset>" in
  ret {| reply_status := 200;
         reply_headers := [ ("Content-Type", "application/xml; charset=utf-8");
                            ("Cache-Control", "public, max-age=3600") ];
         reply_body := sitemap |}.

End Endpoint.

End Sitemap.

(** ** Well-formedness of an XML document

    The grammar of XML 1.0 restricted to what a sitemap uses: an optional XML
    declaration, one root element, start, end and empty-element tags with
    attributes, character data, and references to the five predefined
    entities or to characters. The document is a sequence of bytes in UTF-8.
    Comments, CDATA sections, processing instructions, document type
    declarations, names outside ASCII and encodings other than UTF-8 are
    outside this fragment and are rejected: what the checker accepts is
    well-formed XML 1.0. *)

Module Xml.

Inductive token : Type :=
| Text (s : string)
| Tag (s : string).

Inductive lex_state : Type :=
| InText
| InTag
| InQuote (q : ascii).

Definition snoc (s : string) (c : ascii) : string := s ++ String c EmptyString.

Definition flush (cur : string) (rest : list token) : list token :=
  match cur with
  | EmptyString => rest
  | _ => Text cur :: rest
  end.

(** Splits a document into character data and markup. A tag ends at the
    first [>] outside a quoted attribute value; markup may not contain [<]. *)
Fixpoint lex (st : lex_state) (cur : string) (s : string) : option (list token) :=
  match s with
  | EmptyString =>
      match st with
      | InText => Some (flush cur [])
      | _ => None
      end
  | String c rest =>
      match st with
      | InText =>
          if Ascii.eqb c "<" then option_map (flush cur) (lex InTag EmptyString rest)
          else lex InText (snoc cur c) rest
      | InTag =>
          if Ascii.eqb c ">" then option_map (cons (Tag cur)) (lex InText EmptyString rest)
          else if Ascii.eqb c "<" then None
          else if (Ascii.eqb c "034" || Ascii.eqb c "'")%bool then lex (InQuote c) (snoc cur c) rest
          else lex InTag (snoc cur c) rest
      | InQuote q =>
          if Ascii.eqb c q then lex InTag (snoc cur c) rest
          else if Ascii.eqb c "<" then None
          else lex (InQuote q) (snoc cur c) rest
      end
  end.

Definition code (c : ascii) : nat := nat_of_ascii c.

Definition between (lo hi : nat) (c : ascii) : bool :=
  ((lo <=? code c)%nat && (code c <=? hi)%nat)%bool.

(** The production [Char] on one byte: of the characters below the space
    only tab, line feed and carriage return. The bytes from 128 up are
    judged in their sequence, by [utf8]. *)
Definition char_ok (c : ascii) : bool :=
  ((code c =? 9)%nat || (code c =? 10)%nat || (code c =? 13)%nat || (32 <=? code c)%nat)%bool.

(** Where a UTF-8 decoder stands between two bytes: before a character, or
    inside one with one, two or three bytes to come, the next of them
    restricted after some first bytes. *)
Inductive utf8_state : Type :=
| Lead
| Tail1
| Tail2
| Tail3
| AfterE0      (* A0..BF must follow: no overlong form *)
| AfterED      (* 80..9F must follow: no surrogate *)
| AfterEF      (* 80..BF follows, BF leading to the end of the plane *)
| AfterEFBF    (* 80..BD must follow: neither U+FFFE nor U+FFFF *)
| AfterF0      (* 90..BF must follow: no overlong form *)
| AfterF4.     (* 80..8F must follow: nothing above U+10FFFF *)

Definition utf8_step (st : utf8_state) (c : ascii) : option utf8_state :=
  match st with
  | Lead =>
      if (code c <? 128)%nat then Some Lead
      else if between 194 223 c then Some Tail1
      else if (code c =? 224)%nat then Some AfterE0
      else if between 225 236 c then Some Tail2
      else if (code c =? 237)%nat then Some AfterED
      else if (code c =? 238)%nat then Some Tail2
      else if (code c =? 239)%nat then Some AfterEF
      else if (code c =? 240)%nat then Some AfterF0
      else if between 241 243 c then Some Tail3
      else if (code c =? 244)%nat then Some AfterF4
      else None
  | Tail1 => if between 128 191 c then Some Lead else None
  | Tail2 => if between 128 191 c then Some Tail1 else None
  | Tail3 => if between 128 191 c then Some Tail2 else None
  | AfterE0 => if between 160 191 c then Some Tail1 else None
  | AfterED => if between 128 159 c then Some Tail1 else None
  | AfterEF =>
      if (code c =? 191)%nat then Some AfterEFBF
      else if between 128 190 c then Some Tail1
      else None
  | AfterEFBF => if between 128 189 c then Some Lead else None
  | AfterF0 => if between 144 191 c then Some Tail2 else None
  | AfterF4 => if between 128 143 c then Some Tail2 else None
  end.

(** The bytes are the UTF-8 form of characters of the production [Char]
    from U+0080 up, and of ASCII characters: no byte that cannot start or
    continue a sequence, no overlong form, no surrogate, neither U+FFFE nor
    U+FFFF, nothing above U+10FFFF, and no sequence cut short. *)
Fixpoint utf8 (st : utf8_state) (s : string) : bool :=
  match s with
  | EmptyString =>
      match st with
      | Lead => true
      | _ => false
      end
  | String c rest =>
      match utf8_step st c with
      | Some st' => utf8 st' rest
      | None => false
      end
  end.

Definition utf8_ok (s : string) : bool := utf8 Lead s.

Definition is_space (c : ascii) : bool :=
  ((code c =? 9)%nat || (code c =? 10)%nat || (code c =? 13)%nat || (code c =? 32)%nat)%bool.

Definition is_digit (c : ascii) : bool := between 48 57 c.

Definition is_hex (c : ascii) : bool :=
  (between 48 57 c || between 65 70 c || between 97 102 c)%bool.

Definition name_start (c : ascii) : bool :=
  (between 65 90 c || between 97 122 c || Ascii.eqb c "_" || Ascii.eqb c ":")%bool.

Definition name_char (c : ascii) : bool :=
  (name_start c || is_digit c || Ascii.eqb c "-" || Ascii.eqb c ".")%bool.

Fixpoint all_chars (p : ascii -> bool) (s : string) : bool :=
  match s with
  | EmptyString => true
  | String c rest => (p c && all_chars p rest)%bool
  end.

Definition name_ok (s : string) : bool :=
  match s with
  | EmptyString => false
  | String c rest => (name_start c && all_chars name_char rest)%bool
  end.

(** The value of a digit, decimal or hexadecimal. *)
Definition digit_value (c : ascii) : Z :=
  if between 48 57 c then Z.of_nat (code c) - 48
  else if between 65 70 c then Z.of_nat (code c) - 55
  else Z.of_nat (code c) - 87.

Fixpoint number (base : Z) (acc : Z) (digits : string) : Z :=
  match digits with
  | EmptyString => acc
  | String d ds => number base (acc * base + digit_value d) ds
  end.

(** The production [Char] on code points. *)
Definition code_point_ok (n : Z) : bool :=
  ((n =? 9) || (n =? 10) || (n =? 13)
   || ((32 <=? n) && (n <=? 55295))
   || ((57344 <=? n) && (n <=? 65533))
   || ((65536 <=? n) && (n <=? 1114111)))%Z%bool.

(** What stands between [&] and [;]: one of the five predefined entities
    (no other entity is declared without a document type), or a reference
    to a character of the production [Char]. *)
Definition reference_ok (name : string) : bool :=
  match name with
  | String "#" (String "x" (String h hs)) =>
      (all_chars is_hex (String h hs) && code_point_ok (number 16 0 (String h hs)))%bool
  | String "#" (String d ds) =>
      (all_chars is_digit (String d ds) && code_point_ok (number 10 0 (String d ds)))%bool
  | _ =>
      if in_dec string_dec name ["amp"; "lt"; "gt"; "quot"; "apos"] then true else false
  end.

(** Character data and attribute values, byte by byte: no control
    character, and every [&] opens a reference that [;] closes. *)
Fixpoint text_ok (reference : option string) (s : string) : bool :=
  match s with
  | EmptyString =>
      match reference with
      | None => true
      | Some _ => false
      end
  | String c rest =>
      match reference with
      | None =>
          if Ascii.eqb c "&" then text_ok (Some EmptyString) rest
          else (char_ok c && text_ok None rest)%bool
      | Some name =>
          if Ascii.eqb c ";" then (reference_ok name && text_ok None rest)%bool
          else text_ok (Some (snoc name c)) rest
      end
  end.

(** [CharData] does not hold the end mark of a CDATA section. *)
Fixpoint cdata_free (s : string) : bool :=
  match s with
  | EmptyString => true
  | String _ rest => (negb (String.prefix "]]>" s) && cdata_free rest)%bool
  end.

(** The text of an element, and the value of an attribute. *)
Definition chardata_ok (t : string) : bool :=
  (text_ok None t && utf8_ok t && cdata_free t)%bool.

Definition value_ok (v : string) : bool := (text_ok None v && utf8_ok v)%bool.

Inductive attr_state : Type :=
| Between (spaced : bool)
| AttrName (name : string)
| AttrEq (name : string)
| AttrValue (name : string) (q : ascii) (value : string).

(** The attributes of a tag: each one after white space, a name, the equals
    sign and a value between double quotes or between apostrophes; no name
    twice. *)
Fixpoint attrs_ok (st : attr_state) (seen : list string) (s : string) : bool :=
  match s with
  | EmptyString =>
      match st with
      | Between _ => true
      | _ => false
      end
  | String c rest =>
      match st with
      | Between spaced =>
          if is_space c then attrs_ok (Between true) seen rest
          else (spaced && name_start c
                && attrs_ok (AttrName (String c EmptyString)) seen rest)%bool
      | AttrName name =>
          if Ascii.eqb c "=" then
            (negb (if in_dec string_dec name seen then true else false)
             && attrs_ok (AttrEq name) (name :: seen) rest)%bool
          else (name_char c && attrs_ok (AttrName (snoc name c)) seen rest)%bool
      | AttrEq name =>
          ((Ascii.eqb c "034" || Ascii.eqb c "'")
           && attrs_ok (AttrValue name c EmptyString) seen rest)%bool
      | AttrValue name q value =>
          if Ascii.eqb c q then (value_ok value && attrs_ok (Between false) seen rest)%bool
          else attrs_ok (AttrValue name q (snoc value c)) seen rest
      end
  end.

(** The name that opens a tag, and what follows it. *)
Fixpoint split_name (s : string) : string * string :=
  match s with
  | EmptyString => (EmptyString, EmptyString)
  | String c rest =>
      if name_char c then let (n, r) := split_name rest in (String c n, r)
      else (EmptyString, s)
  end.

(** Without its last character, when that is [c]. *)
Fixpoint without_last (c : ascii) (s : string) : option string :=
  match s with
  | EmptyString => None
  | String a EmptyString => if Ascii.eqb a c then Some EmptyString else None
  | String a rest => option_map (String a) (without_last c rest)
  end.

(** The pseudo-attributes of an XML declaration, in the order written. *)
Fixpoint pseudo_attrs (st : attr_state) (s : string) : option (list (string * string)) :=
  match s with
  | EmptyString =>
      match st with
      | Between _ => Some []
      | _ => None
      end
  | String c rest =>
      match st with
      | Between spaced =>
          if is_space c then pseudo_attrs (Between true) rest
          else if (spaced && name_start c)%bool
               then pseudo_attrs (AttrName (String c EmptyString)) rest
               else None
      | AttrName name =>
          if Ascii.eqb c "=" then pseudo_attrs (AttrEq name) rest
          else if name_char c then pseudo_attrs (AttrName (snoc name c)) rest
               else None
      | AttrEq name =>
          if (Ascii.eqb c "034" || Ascii.eqb c "'")%bool
          then pseudo_attrs (AttrValue name c EmptyString) rest
          else None
      | AttrValue name q value =>
          if Ascii.eqb c q
          then option_map (cons (name, value)) (pseudo_attrs (Between false) rest)
          else pseudo_attrs (AttrValue name q (snoc value c)) rest
      end
  end.

(** The one version of this fragment. *)
Definition version_ok (v : string) : bool := String.eqb v "1.0".

(** The one encoding of this fragment. *)
Definition encoding_ok (e : string) : bool := (String.eqb e "UTF-8" || String.eqb e "utf-8")%bool.

Definition standalone_ok (v : string) : bool := (String.eqb v "yes" || String.eqb v "no")%bool.

(** [XMLDecl]: the version, then the encoding and the standalone
    declaration where they are given. *)
Definition declaration_ok (attrs : string) : bool :=
  match pseudo_attrs (Between false) attrs with
  | Some ((n1, v1) :: more) =>
      (String.eqb n1 "version" && version_ok v1
       && match more with
          | [] => true
          | [(n2, v2)] =>
              ((String.eqb n2 "encoding" && encoding_ok v2)
               || (String.eqb n2 "standalone" && standalone_ok v2))
          | [(n2, v2); (n3, v3)] =>
              (String.eqb n2 "encoding" && encoding_ok v2
               && String.eqb n3 "standalone" && standalone_ok v3)
          | _ => false
          end)%bool
  | _ => false
  end.

Inductive tag_kind : Type :=
| Declaration
| Start (name : string)
| Empty (name : string)
| End_ (name : string)
| Malformed.

Definition element_tag (s : string) (kind : string -> tag_kind) : tag_kind :=
  let (name, attrs) := split_name s in
  if (name_ok name && attrs_ok (Between false) [] attrs)%bool then kind name else Malformed.

Definition classify (s : string) : tag_kind :=
  match s with
  | String "?" (String "x" (String "m" (String "l" rest))) =>
      match without_last "?" rest with
      | Some attrs => if declaration_ok attrs then Declaration else Malformed
      | None => Malformed
      end
  | String "/" rest =>
      let (name, spaces) := split_name rest in
      if (name_ok name && all_chars is_space spaces)%bool then End_ name else Malformed
  | _ =>
      match without_last "/" s with
      | Some s' => element_tag s' Empty
      | None => element_tag s Start
      end
  end.

(** Character data is checked where it stands: only white space outside
    the root element, text with well-formed references inside it. *)
Definition text_valid (open : list string) (t : string) : bool :=
  match open with
  | [] => all_chars is_space t
  | _ => chardata_ok t
  end.

(** An element may start inside another one, or as the one root. *)
Definition root_ok (open : list string) (rooted : bool) : bool :=
  match open with
  | [] => negb rooted
  | _ => true
  end.

(** The elements nest, there is one root, and only white space outside it.
    [open] is the stack of the elements not yet closed. *)
Fixpoint nesting_ok (open : list string) (rooted : bool) (ts : list token) : bool :=
  match ts with
  | [] => (rooted && match open with [] => true | _ => false end)%bool
  | Text t :: rest => (text_valid open t && nesting_ok open rooted rest)%bool
  | Tag g :: rest =>
      match classify g with
      | Start name => (root_ok open rooted && nesting_ok (name :: open) true rest)%bool
      | Empty name => (root_ok open rooted && nesting_ok open true rest)%bool
      | End_ name =>
          match open with
          | top :: below => (String.eqb top name && nesting_ok below rooted rest)%bool
          | [] => false
          end
      | Declaration => false
      | Malformed => false
      end
  end.

Definition document_ok (ts : list token) : bool :=
  match ts with
  | Tag g :: rest =>
      match classify g with
      | Declaration => nesting_ok [] false rest
      | _ => nesting_ok [] false ts
      end
  | _ => nesting_ok [] false ts
  end.

Definition well_formed (document : string) : bool :=
  match lex InText EmptyString document with
  | Some ts => document_ok ts
  | None => false
  end.

(** The tags of a document in their order, and the number of its elements
    named [name]: of its start tags and empty-element tags of this name. *)
Definition tags_of (ts : list token) : list string :=
  flat_map (fun t => match t with Tag g => [g] | Text _ => [] end) ts.

Definition opens (name : string) (g : string) : bool :=
  match classify g with
  | Start n => String.eqb n name
  | Empty n => String.eqb n name
  | _ => false
  end.

Definition elements (name : string) (document : string) : option nat :=
  option_map (fun ts => List.length (filter (opens name) (tags_of ts)))
    (lex InText EmptyString document).

(** The checker from the middle of a document: the rest [s] read in lexer
    state [st] with the pending characters [cur], inside the elements
    [open]. *)
Definition check (st : lex_state) (cur : string) (open : list string) (rooted : bool)
    (s : string) : bool :=
  match lex st cur s with
  | Some ts => nesting_ok open rooted ts
  | None => false
  end.

(** Strings of legal characters in UTF-8, and strings that are moreover
    free of [<], [&] and [>]. *)
Definition legal (s : string) : bool := (all_chars char_ok s && utf8_ok s)%bool.

Definition plain_char (c : ascii) : bool :=
  (char_ok c && negb (Ascii.eqb c "<") && negb (Ascii.eqb c "&")
   && negb (Ascii.eqb c ">"))%bool.

Definition plain (s : string) : bool := (all_chars plain_char s && utf8_ok s)%bool.

Definition plain_ascii (c : ascii) : bool := (plain_char c && (code c <? 128)%nat)%bool.

(** The characters that may stand in a tag without ending it or opening a
    quoted value. *)
Definition tag_char (c : ascii) : bool :=
  negb (Ascii.eqb c "<" || Ascii.eqb c ">" || Ascii.eqb c "034" || Ascii.eqb c "'")%bool.

(** Text that the lexer keeps in one piece, and text that may stand between
    two tags of an element. *)
Definition no_lt (t : string) : bool := all_chars (fun c => negb (Ascii.eqb c "<")) t.

Definition no_gt (t : string) : bool := all_chars (fun c => negb (Ascii.eqb c ">")) t.

(** What a piece of text needs byte by byte: neither [<] nor [>], no control
    character, references closed. *)
Definition marks_ok (t : string) : bool := (no_lt t && no_gt t && text_ok None t)%bool.

Definition content (t : string) : bool := (marks_ok t && utf8_ok t)%bool.

(** A document written as pieces of text and tags, before the rest [s]. *)
Fixpoint markup (ts : list token) (s : string) : string :=
  match ts with
  | [] => s
  | Text t :: r => t ++ markup r s
  | Tag g :: r => String "<" (g ++ String ">" (markup r s))
  end.

Definition token_plain (t : token) : bool :=
  match t with
  | Text t => no_lt t
  | Tag g => all_chars tag_char g
  end.

(** The effect of a tag on the stack of open elements, [k] checking what
    follows. *)
Definition after_tag (g : string) (open : list string) (rooted : bool)
    (k : list string -> bool -> bool) : bool :=
  match classify g with
  | Start name => (root_ok open rooted && k (name :: open) true)%bool
  | Empty name => (root_ok open rooted && k open true)%bool
  | End_ name =>
      match open with
      | top :: below => (String.eqb top name && k below rooted)%bool
      | [] => false
      end
  | _ => false
  end.

(** The checker along the pieces of [markup], [k] checking the rest. *)
Fixpoint walk (ts : list token) (cur : string) (open : list string) (rooted : bool)
    (k : string -> list string -> bool -> bool) : bool :=
  match ts with
  | [] => k cur open rooted
  | Text t :: r => walk r (cur ++ t) open rooted k
  | Tag g :: r =>
      (text_valid open cur
       && after_tag g open rooted (fun open' rooted' => walk r EmptyString open' rooted' k))%bool
  end.

End Xml.

(** ** The vocabulary of the specification

    Definitions written from the specification's description of the
    aggregation loop and of the document, to be compared with the code. *)

Module SitemapSpec.

(** The API answers [url] with a body that parses to [j], whatever the
    status of the response. *)
Definition answers {J} (api : string -> FetchResult J) (url : string) (j : J) : Prop :=
  exists st, api url = Resolves {| status := st; body := inr j |}.

(** The fetch of [url] faults with [e]: the request is rejected, or the body
    of the response is not JSON. *)
Definition faults {J} (api : string -> FetchResult J) (url : string) (e : thrown) : Prop :=
  api url = Rejects e \/ exists st, api url = Resolves {| status := st; body := inl e |}.

Definition data_of {A} (e : APIResponse (list A)) : list A :=
  match data e with
  | Some l => l
  | None => []
  end.

Definition next_of {A} (e : APIResponse A) : bool :=
  match pagination e with
  | Some p => hasNextPage p
  | None => false
  end.

(** The stop condition of the specification: an unsuccessful envelope, an
    empty page, or no next page. *)
Definition stops (e : APIResponse (list Movie)) : Prop :=
  success e = false \/ data_of e = [] \/ next_of e = false.

(** What a page adds to the result: its data, unless it is unsuccessful. *)
Definition page_data (e : APIResponse (list Movie)) : list Movie :=
  if success e then data_of e else [].

(** One [<url>] element of the document. *)
Record UrlEntry : Type := {
  loc : string;
  frequency : string;
  weight : string;
  image : option (string * string)     (* image:loc and image:title, as emitted *)
}.

(** The five entities. *)
Definition entity (c : ascii) : string :=
  if Ascii.eqb c "&" then "&amp;"
  else if Ascii.eqb c "<" then "&lt;"
  else if Ascii.eqb c ">" then "&gt;"
  else if Ascii.eqb c "034" then "&quot;"
  else if Ascii.eqb c "'" then "&apos;"
  else String c EmptyString.

Fixpoint escaped (text : string) : string :=
  match text with
  | EmptyString => EmptyString
  | String c rest => entity c ++ escaped rest
  end.

(** The strings of a list, one after the other. *)
Definition join (l : list string) : string := fold_right append EmptyString l.

Definition special (c : ascii) : Prop :=
  c = "&"%char \/ c = "<"%char \/ c = ">"%char \/ c = "034"%char \/ c = "'"%char.

Fixpoint occurs (c : ascii) (s : string) : Prop :=
  match s with
  | EmptyString => False
  | String a rest => a = c \/ occurs c rest
  end.

Section Document.

Variable env : Env.
Variable now : string.

Definition moviesUrl (p : nat) : string :=
  Sitemap.API_BASE env ++ "/movies?page=" ++ string_of_nat p ++ "&limit=500".

Definition categoriesUrl : string := Sitemap.API_BASE env ++ "/categories".

Definition baseUrl : string :=
  strip_trailing_slash (or_else (PUBLIC_SITE_URL env) "https://filmyfly.work").

Definition today : string := before_first "T" now.

Definition root_entry : UrlEntry :=
  {| loc := baseUrl ++ "/"; frequency := "daily"; weight := "1.0"; image := None |}.

Definition static_entry (p : Sitemap.StaticPage) : UrlEntry :=
  {| loc := baseUrl ++ Sitemap.path p; frequency := Sitemap.changefreq p;
     weight := Sitemap.priority p; image := None |}.

Definition category_entry (c : Category) : UrlEntry :=
  {| loc := baseUrl ++ "/category/" ++ string_of_Z (category_id c) ++ "/" ++ category_slug c;
     frequency := "weekly"; weight := "0.9"; image := None |}.

Definition movie_entry (m : Movie) : UrlEntry :=
  {| loc := baseUrl ++ "/" ++ slug m; frequency := "weekly"; weight := "0.8";
     image := match thumbnail m with
              | Some t => if truthy (Some t) then Some (escaped t, escaped (title m)) else None
              | None => None
              end |}.

Definition entries (cs : list Category) (ms : list Movie) : list UrlEntry :=
  (root_entry :: map static_entry Sitemap.staticPages
     ++ map category_entry cs ++ map movie_entry ms)%list.

Definition render_image (i : option (string * string)) : string :=
  match i with
  | Some (l, t) =>
      Sitemap.nl ++ "    <image:image>" ++ Sitemap.nl
      ++ "      <image:loc>" ++ l ++ "</image:loc>" ++ Sitemap.nl
      ++ "      <image:title>" ++ t ++ "</image:title>" ++ Sitemap.nl
      ++ "    </image:image>"
  | None => EmptyString
  end.

Definition render_entry (e : UrlEntry) : string :=
  "  <url>" ++ Sitemap.nl
  ++ "    <loc>" ++ loc e ++ "</loc>" ++ Sitemap.nl
  ++ "    <lastmod>" ++ today ++ "</lastmod>" ++ Sitemap.nl
  ++ "    <changefreq>" ++ frequency e ++ "</changefreq>" ++ Sitemap.nl
  ++ "    <priority>" ++ weight e ++ "</priority>"
  ++ render_image (image e) ++ Sitemap.nl
  ++ "  </url>" ++ Sitemap.nl.

Definition prolog : string :=
  "<?xml version=" ++ Sitemap.dq ++ "1.0" ++ Sitemap.dq
  ++ " encoding=" ++ Sitemap.dq ++ "UTF-8" ++ Sitemap.dq ++ "?>" ++ Sitemap.nl
  ++ "<urlset xmlns=" ++ Sitemap.dq ++ "http://www.sitemaps.org/schemas/sitemap/0.9"
  ++ Sitemap.dq ++ Sitemap.nl
  ++ "        xmlns:image=" ++ Sitemap.dq
  ++ "http://www.google.com/schemas/sitemap-image/1.1" ++ Sitemap.dq ++ Sitemap.nl
  ++ "        xmlns:news=" ++ Sitemap.dq
  ++ "http://www.google.com/schemas/sitemap-news/0.9" ++ Sitemap.dq ++ ">" ++ Sitemap.nl.

Definition document (es : list UrlEntry) : string :=
  prolog ++ join (map render_entry es) ++ "</urlset>".

(** The response the endpoint is specified to give for a document. *)
Definition served (body : string) : Sitemap.HttpReply :=
  {| Sitemap.reply_status := 200;
     Sitemap.reply_headers := [ ("Content-Type", "application/xml; charset=utf-8");
                                ("Cache-Control", "public, max-age=3600") ];
     Sitemap.reply_body := body |}.

(** The pieces of text and the tags of one entry, and of the two tags that
    open the document. *)
Definition image_tokens (i : option (string * string)) : list Xml.token :=
  match i with
  | Some (l, t) =>
      [ Xml.Text (Sitemap.nl ++ "    "); Xml.Tag "image:image";
        Xml.Text (Sitemap.nl ++ "      "); Xml.Tag "image:loc"; Xml.Text l;
        Xml.Tag "/image:loc";
        Xml.Text (Sitemap.nl ++ "      "); Xml.Tag "image:title"; Xml.Text t;
        Xml.Tag "/image:title";
        Xml.Text (Sitemap.nl ++ "    "); Xml.Tag "/image:image" ]
  | None => []
  end.

Definition entry_tokens (e : UrlEntry) : list Xml.token :=
  ([ Xml.Text "  "; Xml.Tag "url";
     Xml.Text (Sitemap.nl ++ "    "); Xml.Tag "loc"; Xml.Text (loc e); Xml.Tag "/loc";
     Xml.Text (Sitemap.nl ++ "    "); Xml.Tag "lastmod"; Xml.Text today; Xml.Tag "/lastmod";
     Xml.Text (Sitemap.nl ++ "    "); Xml.Tag "changefreq"; Xml.Text (frequency e);
     Xml.Tag "/changefreq";
     Xml.Text (Sitemap.nl ++ "    "); Xml.Tag "priority"; Xml.Text (weight e);
     Xml.Tag "/priority" ]
   ++ image_tokens (image e)
   ++ [ Xml.Text (Sitemap.nl ++ "  "); Xml.Tag "/url"; Xml.Text Sitemap.nl ])%list.

Definition declaration : string :=
  "?xml version=" ++ Sitemap.dq ++ "1.0" ++ Sitemap.dq
  ++ " encoding=" ++ Sitemap.dq ++ "UTF-8" ++ Sitemap.dq ++ "?".

Definition urlset : string :=
  "urlset xmlns=" ++ Sitemap.dq ++ "http://www.sitemaps.org/schemas/sitemap/0.9"
  ++ Sitemap.dq ++ Sitemap.nl
  ++ "        xmlns:image=" ++ Sitemap.dq
  ++ "http://www.google.com/schemas/sitemap-image/1.1" ++ Sitemap.dq ++ Sitemap.nl
  ++ "        xmlns:news=" ++ Sitemap.dq
  ++ "http://www.google.com/schemas/sitemap-news/0.9" ++ Sitemap.dq.

(** The fields of an entry are text that may stand inside an element. *)
Definition image_ok (i : option (string * string)) : bool :=
  match i with
  | Some (l, t) => (Xml.content l && Xml.content t)%bool
  | None => true
  end.

Definition entry_ok (e : UrlEntry) : bool :=
  (Xml.content (loc e) && Xml.content (frequency e) && Xml.content (weight e)
   && image_ok (image e))%bool.

End Document.

End SitemapSpec.

(** ** A stand-in for the upstream API

    The backend is not part of this repository. These definitions give the
    examples something to call: a catalog served in pages, the way the
    [Pagination] record describes it. *)

Module Backend.

Definition movie (n : nat) (thumb : option string) : Movie :=
  {| id := Z.of_nat n; title := "Movie " ++ string_of_nat n;
     slug := "movie-" ++ string_of_nat n; description := None; thumbnail := thumb;
     genre := None; languages := None; duration := None; releaseYear := None;
     cast := None; sizes := None; downloadUrl := None; screenshot := None;
     keywords := None; categoryId := None; category := None;
     createdAt := "2025-01-01T00:00:00.000Z"; updatedAt := "2025-01-01T00:00:00.000Z" |}.

Definition with_title (t : string) (m : Movie) : Movie :=
  {| id := id m; title := t; slug := slug m; description := description m;
     thumbnail := thumbnail m; genre := genre m; languages := languages m;
     duration := duration m; releaseYear := releaseYear m; cast := cast m;
     sizes := sizes m; downloadUrl := downloadUrl m; screenshot := screenshot m;
     keywords := keywords m; categoryId := categoryId m; category := category m;
     createdAt := createdAt m; updatedAt := updatedAt m |}.

Definition with_slug (s : string) (m : Movie) : Movie :=
  {| id := id m; title := title m; slug := s; description := description m;
     thumbnail := thumbnail m; genre := genre m; languages := languages m;
     duration := duration m; releaseYear := releaseYear m; cast := cast m;
     sizes := sizes m; downloadUrl := downloadUrl m; screenshot := screenshot m;
     keywords := keywords m; categoryId := categoryId m; category := category m;
     createdAt := createdAt m; updatedAt := updatedAt m |}.

Definition genre_category (n : Z) (s : string) : Category :=
  {| category_id := n; category_name := s; category_slug := s;
     category_description := None; category_count := None;
     category_createdAt := "2025-01-01T00:00:00.000Z";
     category_updatedAt := "2025-01-01T00:00:00.000Z" |}.

Definition catalog (n : nat) : list Movie := map (fun i => movie i None) (seq 1 n).

Definition pages_of (n size : nat) : nat := (n + size - 1) / size.

(** Page [p] (from 1) of catalog [c] in pages of [size]. *)
Definition paged (c : list Movie) (size p : nat) : APIResponse (list Movie) :=
  {| success := true;
     data := Some (firstn size (skipn ((p - 1) * size) c));
     error := None;
     pagination :=
       Some {| page := p; limit := size; total := List.length c;
               totalPages := pages_of (List.length c) size;
               hasNextPage := (p <? pages_of (List.length c) size)%nat;
               hasPrevPage := (1 <? p)%nat |} |}.

Definition envelope {T} (ok : bool) (d : option T) (next : option bool) : APIResponse T :=
  {| success := ok; data := d; error := None;
     pagination :=
       option_map (fun b => {| page := 1; limit := 500; total := 0; totalPages := 0;
                               hasNextPage := b; hasPrevPage := false |}) next |}.

Definition replies {J} (st : nat) (j : J) : FetchResult J :=
  Resolves {| status := st; body := inr j |}.

Definition network_failure : thrown := ErrorObject "TypeError" "fetch failed".

Definition syntax_error : thrown := ErrorObject "SyntaxError" "Unexpected token < in JSON".

(** An API that answers [url_of p] with [ep p] for the listed pages and
    rejects every other request. *)
Fixpoint serve {J} (url_of : nat -> string) (ep : nat -> J) (pages : list nat)
    (url : string) : FetchResult J :=
  match pages with
  | [] => Rejects network_failure
  | p :: ps => if (url =? url_of p)%string then replies 200 (ep p) else serve url_of ep ps url
  end.

Definition env0 : Env := {| PUBLIC_API_URL := None; PUBLIC_SITE_URL := None |}.

(** The movie endpoint answering pages 1 to [pages] with [ep]. *)
Definition movies_api (ep : nat -> APIResponse (list Movie)) (pages : nat)
    : string -> FetchResult (APIResponse (list Movie)) :=
  serve (SitemapSpec.moviesUrl env0) ep (seq 1 pages).

(** The category endpoint settling to [r]. *)
Definition categories_api (r : FetchResult (APIResponse (list Category)))
    : string -> FetchResult (APIResponse (list Category)) :=
  fun url => if (url =? SitemapSpec.categoriesUrl env0)%string then r
             else Rejects network_failure.

Definition noon : string := "2026-11-02T12:00:00.000Z".

End Backend.

(** ** What the endpoint sees of the upstream API

    Notions used to state what the sitemap endpoint does for every upstream
    behaviour, and the part of the loop body that follows the two awaits. *)

Module Behaviour.

(** Two APIs that settle every request alike, the status of the response
    apart. *)
Definition same_bodies {J} (a b : string -> FetchResult J) : Prop :=
  forall url,
    match a url, b url with
    | Rejects e, Rejects e' => e = e'
    | Resolves r, Resolves r' => body r = body r'
    | _, _ => False
    end.

Definition no_envelope : APIResponse (list Movie) :=
  {| success := false; data := None; error := None; pagination := None |}.

(** The envelope the movie endpoint gives for page [p], where it gives one. *)
Definition served_page (env : Env) (api : string -> FetchResult (APIResponse (list Movie)))
    (p : nat) : APIResponse (list Movie) :=
  match api (SitemapSpec.moviesUrl env p) with
  | Resolves r =>
      match body r with
      | inr e => e
      | inl _ => no_envelope
      end
  | Rejects _ => no_envelope
  end.

(** The two conditions under which the loop asks for another page. *)
Definition goes_on (e : APIResponse (list Movie)) : bool :=
  (success e
   && match SitemapSpec.data_of e with [] => false | _ => true end
   && SitemapSpec.next_of e)%bool.

(** The assignments of one turn of the loop, once [moviesData] is there. *)
Definition after_page (v : Sitemap.LoopVars) (e : APIResponse (list Movie))
    : Sitemap.LoopVars :=
  if goes_on e then
    {| Sitemap.allMovies := (Sitemap.allMovies v ++ SitemapSpec.data_of e)%list;
       Sitemap.page := Sitemap.page v + 1;
       Sitemap.hasMore := Sitemap.hasMore v |}
  else
    {| Sitemap.allMovies := (Sitemap.allMovies v ++ SitemapSpec.page_data e)%list;
       Sitemap.page := Sitemap.page v;
       Sitemap.hasMore := false |}.

End Behaviour.

(** * Properties *)

(** ** Strings *)

Lemma append_assoc (a b c : string) : (a ++ b) ++ c = a ++ (b ++ c).
Proof.
  induction a as [|x a IH]; simpl; [reflexivity|].
  now rewrite IH.
Qed.

Lemma append_nil_r (a : string) : a ++ EmptyString = a.
Proof.
  induction a as [|x a IH]; simpl; [reflexivity|].
  now rewrite IH.
Qed.

(** ** The API client *)

Section ApiFacts.

Variable env : Env.
Variable J : Type.
Variable remote : string -> FetchResult J.
Variable encodeURIComponent : string -> thrown + string.

Let searchUrl (q : string) (page limit : option Z) : string :=
  Api.API_BASE env ++ "/search?q=" ++ q
  ++ "&page=" ++ string_of_Z (Api.defaulting page 1)
  ++ "&limit=" ++ string_of_Z (Api.defaulting limit 20).

Lemma ok_false_iff (r : Response J) : ok r = false <-> ~ (200 <= status r <= 299).
Proof.
  unfold ok.
  destruct (Nat.leb_spec 200 (status r)), (Nat.leb_spec (status r) 299); simpl;
    split; intros; try lia; try reflexivity; try discriminate.
Qed.

(** C3. Whatever the query, when the search request is answered with a
    status outside 200-299, [searchMovies] returns the local result
    [{success: false, error: "Search API returned <status>"}] instead of
    throwing, and the search request is the only call it has made. *)
Theorem searchMovies_guards_http_errors :
  forall (query : string) (page limit : option Z) (q : string) (r : Response J) (log : Log),
    encodeURIComponent query = inr q ->
    remote (searchUrl q page limit) = Resolves r ->
    ~ (200 <= status r <= 299) ->
    Api.searchMovies env J remote encodeURIComponent query page limit log
    = (Returns (Api.Failure false ("Search API returned " ++ string_of_nat (status r))),
       (log ++ [searchUrl q page limit])%list).
Proof.
  intros query page limit q r log Hq Hr Hst.
  apply ok_false_iff in Hst.
  unfold Api.searchMovies, try_catch, bind, settle, fetch.
  rewrite Hq. cbn [ret].
  fold (searchUrl q page limit). rewrite Hr, Hst. reflexivity.
Qed.

(** [searchMovies] never throws: every fault raised inside its [try] block
    ends in the object built by its [catch] block. *)
Lemma searchMovies_never_throws :
  forall (query : string) (page limit : option Z) (log : Log),
  exists result log',
    Api.searchMovies env J remote encodeURIComponent query page limit log
    = (Returns result, log').
Proof.
  intros query page limit log.
  unfold Api.searchMovies, try_catch, bind, settle, fetch, json, settle.
  destruct (encodeURIComponent query) as [e|q]; cbn [throw ret];
    [do 2 eexists; reflexivity|].
  destruct (remote _) as [e|r]; cbn [throw ret]; [do 2 eexists; reflexivity|].
  destruct (ok r); cbn [negb throw ret]; [|do 2 eexists; reflexivity].
  destruct (body r) as [e|j]; cbn [throw ret]; do 2 eexists; reflexivity.
Qed.

(** C8. Each of the eight operations other than [searchMovies] sends
    exactly one request, to its own resource, and hands on what it gets
    without a guard: a rejected request and a body that is not JSON are
    thrown to the caller, and a parsed body is returned as it is, whatever
    the status of the response. *)
Theorem unguarded_operations_pass_through :
  forall (op : Api.Operation) (log : Log),
    let url := Api.API_BASE env ++ Api.spec_resource op in
    let run := Api.perform env J remote op log in
    (forall e, remote url = Rejects e -> run = (Throws e, (log ++ [url])%list))
    /\ (forall st e, remote url = Resolves {| status := st; body := inl e |} ->
        run = (Throws e, (log ++ [url])%list))
    /\ (forall st j, remote url = Resolves {| status := st; body := inr j |} ->
        run = (Returns j, (log ++ [url])%list)).
Proof.
  intros op log url run. subst url run.
  destruct op; cbn [Api.perform Api.spec_resource];
    unfold Api.getHomePageData, Api.getMovies, Api.getTrendingMovies, Api.getMovieBySlug,
      Api.getCategories, Api.getCategoryBySlug, Api.getStaticPage, Api.getPublicSettings,
      bind, fetch, json, settle;
    (repeat split; intros until 1;
     match goal with H : remote _ = _ |- _ => rewrite H end; reflexivity).
Qed.

End ApiFacts.

Lemma searchMovies_guards_http_errors_witness :
  Api.searchMovies Backend.env0 unit
    (fun _ => Resolves {| status := 404; body := inl Backend.syntax_error |})
    (fun s => inr s) "batman" None None []
  = (Returns (Api.Failure false "Search API returned 404"),
     ["http://localhost:8080/api/search?q=batman&page=1&limit=20"]).
Proof.
  refine (searchMovies_guards_http_errors Backend.env0 unit _ _
            "batman" None None "batman" _ [] eq_refl eq_refl _).
  simpl. lia.
Defined.

Lemma unguarded_operations_pass_through_witness :
  Api.perform Backend.env0 nat
    (fun url => if (url =? "http://localhost:8080/api/movies?page=3&limit=20")%string
                then Backend.replies 503 7 else Rejects Backend.network_failure)
    (Api.Movies (Some 3%Z) None) []
  = (Returns 7, ["http://localhost:8080/api/movies?page=3&limit=20"]).
Proof.
  refine (proj2 (proj2 (unguarded_operations_pass_through Backend.env0 nat _
                          (Api.Movies (Some 3%Z) None) [])) 503 7 _).
  reflexivity.
Defined.

(** ** [escapeXml] *)

Lemma replace_all_app (c : ascii) (r a b : string) :
  replace_all c r (a ++ b) = replace_all c r a ++ replace_all c r b.
Proof.
  induction a as [|x a IH]; simpl; [reflexivity|].
  destruct (Ascii.eqb x c); rewrite IH; [|reflexivity].
  now rewrite append_assoc.
Qed.

(** The five passes of [escapeXml] amount to one pass that replaces each
    special character by its entity: the ampersands that the later passes
    meet inside an entity are left alone, because [&] is replaced first. *)
Lemma escapeXml_escaped (text : string) :
  Sitemap.escapeXml text = SitemapSpec.escaped text.
Proof.
  unfold Sitemap.escapeXml.
  induction text as [|a rest IH]; [reflexivity|].
  cbn [replace_all SitemapSpec.escaped].
  rewrite <- IH. unfold SitemapSpec.entity.
  destruct (Ascii.eqb_spec a "&") as [->|Hamp]; [reflexivity|].
  cbn [replace_all].
  destruct (Ascii.eqb_spec a "<") as [->|Hlt]; [reflexivity|].
  cbn [replace_all].
  destruct (Ascii.eqb_spec a ">") as [->|Hgt]; [reflexivity|].
  cbn [replace_all].
  destruct (Ascii.eqb_spec a "034") as [->|Hdq]; [reflexivity|].
  cbn [replace_all].
  destruct (Ascii.eqb_spec a "'") as [->|Hap]; reflexivity.
Qed.

Lemma occurs_app (c : ascii) (a b : string) :
  SitemapSpec.occurs c (a ++ b) <-> SitemapSpec.occurs c a \/ SitemapSpec.occurs c b.
Proof.
  induction a as [|x a IH]; simpl; [tauto|].
  rewrite IH. tauto.
Qed.

Lemma entity_has_no_markup (a c : ascii) :
  In c ["<"; ">"; "034"; "'"]%char -> ~ SitemapSpec.occurs c (SitemapSpec.entity a).
Proof.
  intros Hc Hocc. unfold SitemapSpec.entity in Hocc.
  assert (Hne : c <> "&"%char /\ c <> "a"%char /\ c <> "m"%char /\ c <> "p"%char
                /\ c <> ";"%char /\ c <> "l"%char /\ c <> "t"%char /\ c <> "g"%char
                /\ c <> "q"%char /\ c <> "u"%char /\ c <> "o"%char /\ c <> "s"%char).
  { simpl in Hc. repeat split; intros ->; intuition discriminate. }
  destruct (Ascii.eqb_spec a "&"); [simpl in Hocc; intuition congruence|].
  destruct (Ascii.eqb_spec a "<"); [simpl in Hocc; intuition congruence|].
  destruct (Ascii.eqb_spec a ">"); [simpl in Hocc; intuition congruence|].
  destruct (Ascii.eqb_spec a "034"); [simpl in Hocc; intuition congruence|].
  destruct (Ascii.eqb_spec a "'"); [simpl in Hocc; intuition congruence|].
  simpl in Hocc, Hc. intuition congruence.
Qed.

Lemma entity_of_plain (a : ascii) :
  ~ SitemapSpec.special a -> SitemapSpec.entity a = String a EmptyString.
Proof.
  unfold SitemapSpec.special, SitemapSpec.entity. intros H.
  destruct (Ascii.eqb_spec a "&"); [tauto|].
  destruct (Ascii.eqb_spec a "<"); [tauto|].
  destruct (Ascii.eqb_spec a ">"); [tauto|].
  destruct (Ascii.eqb_spec a "034"); [tauto|].
  destruct (Ascii.eqb_spec a "'"); [tauto|].
  reflexivity.
Qed.

(** C10. The output of [escapeXml] holds none of the raw characters
    [<], [>], double quote and apostrophe, and a string with none of the
    five special characters is returned unchanged. *)
Theorem escapeXml_output_and_identity :
  forall text : string,
    (forall c, In c ["<"; ">"; "034"; "'"]%char ->
               ~ SitemapSpec.occurs c (Sitemap.escapeXml text))
    /\ ((forall c, SitemapSpec.special c -> ~ SitemapSpec.occurs c text) ->
        Sitemap.escapeXml text = text).
Proof.
  intros text. rewrite escapeXml_escaped. split.
  - intros c Hc. induction text as [|a rest IH]; simpl; [tauto|].
    rewrite occurs_app. intros [H|H]; [|exact (IH H)].
    exact (entity_has_no_markup a c Hc H).
  - induction text as [|a rest IH]; intros Hclean; [reflexivity|].
    simpl. rewrite entity_of_plain.
    + simpl. f_equal. apply IH. intros c Hc Hocc. apply (Hclean c Hc). now right.
    + intros Ha. apply (Hclean a Ha). now left.
Qed.

Lemma escapeXml_output_and_identity_witness :
  ~ SitemapSpec.occurs "<" (Sitemap.escapeXml "Tom & <Jerry>")
  /\ Sitemap.escapeXml "Spider-Man 2" = "Spider-Man 2".
Proof.
  split.
  - apply (proj1 (escapeXml_output_and_identity "Tom & <Jerry>") "<"%char).
    simpl. tauto.
  - apply (proj2 (escapeXml_output_and_identity "Spider-Man 2")).
    intros c Hc Hocc. unfold SitemapSpec.special in Hc. simpl in Hocc.
    intuition (subst; discriminate).
Defined.

(** ** The aggregation loop *)

Section LoopFacts.

Import SitemapSpec.

Variable env : Env.
Variable moviesApi : string -> FetchResult (APIResponse (list Movie)).

Local Abbreviation turn := (Sitemap.loop_body env moviesApi).
Local Abbreviation url := (moviesUrl env).

Lemma not_stops (e : APIResponse (list Movie)) :
  ~ stops e -> success e = true /\ data_of e <> [] /\ next_of e = true.
Proof.
  unfold stops. intros H.
  destruct (success e), (next_of e), (data_of e); intuition congruence.
Qed.

(** A turn that meets a page with more to follow. *)
Lemma turn_continues (v : Sitemap.LoopVars) (e : APIResponse (list Movie)) (log : Log) :
  answers moviesApi (url (Sitemap.page v)) e ->
  ~ stops e ->
  turn v log
  = (Returns {| Sitemap.allMovies := (Sitemap.allMovies v ++ data_of e)%list;
                Sitemap.page := Sitemap.page v + 1;
                Sitemap.hasMore := Sitemap.hasMore v |},
     (log ++ [url (Sitemap.page v)])%list).
Proof.
  intros [st Hans] Hgo. apply not_stops in Hgo. destruct Hgo as (Hs & Hd & Hn).
  unfold Sitemap.loop_body, bind, fetch, json, settle.
  change (Sitemap.API_BASE env ++ "/movies?page=" ++ string_of_nat (Sitemap.page v)
          ++ "&limit=" ++ string_of_nat Sitemap.limit) with (url (Sitemap.page v)).
  rewrite Hans. cbn [body ret]. rewrite Hs.
  unfold data_of in Hd |- *. unfold next_of in Hn.
  destruct (data e) as [[|m d]|]; try congruence.
  cbn. destruct (pagination e) as [p|]; [|discriminate].
  rewrite Hn. reflexivity.
Qed.

(** A turn that meets a stop page. *)
Lemma turn_stops (v : Sitemap.LoopVars) (e : APIResponse (list Movie)) (log : Log) :
  answers moviesApi (url (Sitemap.page v)) e ->
  stops e ->
  turn v log
  = (Returns {| Sitemap.allMovies := (Sitemap.allMovies v ++ page_data e)%list;
                Sitemap.page := Sitemap.page v;
                Sitemap.hasMore := false |},
     (log ++ [url (Sitemap.page v)])%list).
Proof.
  intros [st Hans] Hstop.
  unfold Sitemap.loop_body, bind, fetch, json, settle.
  change (Sitemap.API_BASE env ++ "/movies?page=" ++ string_of_nat (Sitemap.page v)
          ++ "&limit=" ++ string_of_nat Sitemap.limit) with (url (Sitemap.page v)).
  rewrite Hans. cbn [body ret].
  unfold stops, page_data, data_of, next_of in *.
  destruct (success e); cbn.
  - destruct (data e) as [[|m d]|]; cbn; rewrite ?app_nil_r; try reflexivity.
    destruct (pagination e) as [p|]; [|reflexivity].
    destruct (hasNextPage p); [|reflexivity].
    destruct Hstop as [H|[H|H]]; discriminate.
  - rewrite app_nil_r. reflexivity.
Qed.

(** A turn whose fetch faults: the fault leaves the loop. *)
Lemma turn_faults (v : Sitemap.LoopVars) (err : thrown) (log : Log) :
  faults moviesApi (url (Sitemap.page v)) err ->
  turn v log = (Throws err, (log ++ [url (Sitemap.page v)])%list).
Proof.
  intros Hf.
  unfold Sitemap.loop_body, bind, fetch, json, settle.
  change (Sitemap.API_BASE env ++ "/movies?page=" ++ string_of_nat (Sitemap.page v)
          ++ "&limit=" ++ string_of_nat Sitemap.limit) with (url (Sitemap.page v)).
  destruct Hf as [H|[st H]]; rewrite H; reflexivity.
Qed.

(** The loop from any of its states: [n] pages with more to follow, then a
    stop page. *)
Lemma loop_runs_to_first_stop (ep : nat -> APIResponse (list Movie)) :
  forall (n : nat) (v : Sitemap.LoopVars) (fuel : nat) (log : Log),
    Sitemap.hasMore v = true ->
    (forall i, i <= n -> answers moviesApi (url (Sitemap.page v + i)) (ep (Sitemap.page v + i))) ->
    (forall i, i < n -> ~ stops (ep (Sitemap.page v + i))) ->
    stops (ep (Sitemap.page v + n)) ->
    n + 1 < fuel ->
    while fuel Sitemap.hasMore turn v log
    = (Returns {| Sitemap.allMovies :=
                    (Sitemap.allMovies v
                     ++ flat_map (fun p => page_data (ep p)) (seq (Sitemap.page v) (S n)))%list;
                  Sitemap.page := Sitemap.page v + n;
                  Sitemap.hasMore := false |},
       (log ++ map url (seq (Sitemap.page v) (S n)))%list).
Proof.
  induction n as [|n IH]; intros v fuel log Hmore Hans Hgo Hstop Hfuel.
  - destruct fuel as [|[|fuel]]; try lia.
    cbn [while]. rewrite Hmore. unfold bind at 1.
    rewrite Nat.add_0_r in Hstop.
    specialize (Hans 0 (Nat.le_0_l _)). rewrite Nat.add_0_r in Hans.
    rewrite (turn_stops v _ log Hans Hstop). cbn [Sitemap.hasMore].
    cbn [seq flat_map map]. rewrite app_nil_r, Nat.add_0_r. reflexivity.
  - destruct fuel as [|fuel]; try lia.
    cbn [while]. rewrite Hmore. unfold bind at 1.
    assert (Hans0 := Hans 0 (Nat.le_0_l _)). rewrite Nat.add_0_r in Hans0.
    assert (Hgo0 := Hgo 0 (Nat.lt_0_succ _)). rewrite Nat.add_0_r in Hgo0.
    rewrite (turn_continues v _ log Hans0 Hgo0).
    rewrite IH; cbn [Sitemap.page Sitemap.hasMore Sitemap.allMovies]; try assumption; try lia.
    + destruct (not_stops _ Hgo0) as (Hs & _ & _).
      assert (Hpd : page_data (ep (Sitemap.page v)) = data_of (ep (Sitemap.page v)))
        by (unfold page_data; now rewrite Hs).
      change (seq (Sitemap.page v) (S (S n)))
        with (Sitemap.page v :: seq (S (Sitemap.page v)) (S n)).
      cbn [flat_map map]. rewrite Hpd, <- !app_assoc. cbn [app].
      replace (Sitemap.page v + 1) with (S (Sitemap.page v)) by lia.
      replace (S (Sitemap.page v) + n) with (Sitemap.page v + S n) by lia.
      reflexivity.
    + intros i Hi. replace (Sitemap.page v + 1 + i) with (Sitemap.page v + S i) by lia.
      apply Hans. lia.
    + intros i Hi. replace (Sitemap.page v + 1 + i) with (Sitemap.page v + S i) by lia.
      apply Hgo. lia.
    + replace (Sitemap.page v + 1 + n) with (Sitemap.page v + S n) by lia. exact Hstop.
Qed.

(** From the initial assignments: [k] is the first stop page. *)
Lemma aggregation_to_first_stop (ep : nat -> APIResponse (list Movie)) (k : nat) :
  1 <= k ->
  (forall p, 1 <= p <= k -> answers moviesApi (url p) (ep p)) ->
  (forall p, 1 <= p < k -> ~ stops (ep p)) ->
  stops (ep k) ->
  forall (fuel : nat) (log : Log),
    k < fuel ->
    Sitemap.fetchAllMovies env moviesApi fuel log
    = (Returns {| Sitemap.allMovies := flat_map (fun p => page_data (ep p)) (seq 1 k);
                  Sitemap.page := k;
                  Sitemap.hasMore := false |},
       (log ++ map url (seq 1 k))%list).
Proof.
  intros Hk Hans Hgo Hstop fuel log Hfuel.
  destruct k as [|n]; [lia|].
  unfold Sitemap.fetchAllMovies.
  rewrite (loop_runs_to_first_stop ep n); cbn [Sitemap.page Sitemap.hasMore Sitemap.allMovies];
    try reflexivity; try lia.
  - intros i Hi. apply Hans. lia.
  - intros i Hi. apply Hgo. lia.
  - exact Hstop.
Qed.

End LoopFacts.

(** ** A catalog served in pages *)

Lemma firstn_chunk {A} (l : list A) (a b : nat) :
  (firstn a l ++ firstn b (skipn a l))%list = firstn (a + b) l.
Proof.
  revert l. induction a as [|a IH]; intros l; [reflexivity|].
  destruct l as [|x l]; cbn [firstn skipn Nat.add app].
  - now rewrite firstn_nil.
  - now rewrite IH.
Qed.

Lemma chunks_make_prefix {A} (c : list A) (size k : nat) :
  flat_map (fun p => firstn size (skipn ((p - 1) * size) c)) (seq 1 k)
  = firstn (k * size) c.
Proof.
  induction k as [|k IH]; [reflexivity|].
  rewrite seq_S, flat_map_app, IH. cbn [flat_map]. rewrite app_nil_r.
  replace (1 + k - 1) with k by lia.
  rewrite firstn_chunk. f_equal. lia.
Qed.

Lemma pages_of_lt (n size p : nat) :
  0 < size -> (p < Backend.pages_of n size <-> p * size < n).
Proof.
  intros Hs. unfold Backend.pages_of. split; intros H.
  - destruct (Nat.lt_ge_cases (p * size) n) as [Hlt|Hge]; [exact Hlt|exfalso].
    assert ((n + size - 1) / size < p + 1); [|lia].
    apply Nat.Div0.div_lt_upper_bound. nia.
  - assert (p + 1 <= (n + size - 1) / size); [|lia].
    apply Nat.div_le_lower_bound; nia.
Qed.

Lemma paged_data (c : list Movie) (size p : nat) :
  SitemapSpec.page_data (Backend.paged c size p)
  = firstn size (skipn ((p - 1) * size) c).
Proof. reflexivity. Qed.

Lemma paged_goes_on (c : list Movie) (size p : nat) :
  0 < size -> 1 <= p -> p < Backend.pages_of (List.length c) size ->
  ~ SitemapSpec.stops (Backend.paged c size p).
Proof.
  intros Hs Hp Hlt [H|[H|H]].
  - discriminate.
  - unfold SitemapSpec.data_of in H. cbn [Backend.paged data] in H.
    apply (f_equal (@List.length _)) in H.
    rewrite length_firstn, length_skipn in H. cbn [List.length] in H.
    apply pages_of_lt in Hlt; [|exact Hs]. nia.
  - unfold SitemapSpec.next_of in H. cbn [Backend.paged pagination hasNextPage] in H.
    apply Nat.ltb_ge in H. lia.
Qed.

Lemma paged_last_stops (c : list Movie) (size : nat) :
  SitemapSpec.stops
    (Backend.paged c size (Nat.max 1 (Backend.pages_of (List.length c) size))).
Proof.
  right. right. unfold SitemapSpec.next_of.
  cbn [Backend.paged pagination hasNextPage]. apply Nat.ltb_ge. lia.
Qed.

Section AggregationFacts.

Import SitemapSpec.

Variable env : Env.
Variable moviesApi : string -> FetchResult (APIResponse (list Movie)).

(** A catalog of any size served in pages of any size is aggregated whole,
    in order, in as many requests as it has pages (one for an empty
    catalog). *)
Lemma paged_catalog_aggregated (c : list Movie) (size : nat) :
  0 < size ->
  let k := Nat.max 1 (Backend.pages_of (List.length c) size) in
  (forall p, 1 <= p <= k -> answers moviesApi (moviesUrl env p) (Backend.paged c size p)) ->
  forall (fuel : nat) (log : Log),
    k < fuel ->
    Sitemap.fetchAllMovies env moviesApi fuel log
    = (Returns {| Sitemap.allMovies := c; Sitemap.page := k; Sitemap.hasMore := false |},
       (log ++ map (moviesUrl env) (seq 1 k))%list).
Proof.
  intros Hs k Hans fuel log Hfuel.
  rewrite (aggregation_to_first_stop env moviesApi (Backend.paged c size) k);
    try assumption; try (subst k; lia).
  - do 2 f_equal.
    assert (Heq : flat_map (fun p => page_data (Backend.paged c size p)) (seq 1 k)
                  = firstn (k * size) c).
    { rewrite <- chunks_make_prefix. apply flat_map_ext. intros p. apply paged_data. }
    rewrite Heq. f_equal. apply firstn_all2.
    destruct (Nat.lt_ge_cases (k * size) (List.length c)) as [Hlt|Hge]; [|exact Hge].
    apply pages_of_lt in Hlt; [|exact Hs]. subst k. lia.
  - intros p Hp. apply paged_goes_on; lia.
  - apply paged_last_stops.
Qed.

(** C1. The aggregation loop (batches of 500) returns the data of the pages
    from page 1 up to the first page that stops it, each page once and in
    page order, an unsuccessful page adding nothing, and it has then sent
    exactly the requests for those pages; so a catalog served in pages of
    whatever size is returned whole, and a catalog of 2568 movies served in
    pages of 500 gives its 2568 entries in 6 requests. *)
Theorem aggregation_is_exhaustive :
  (forall (ep : nat -> APIResponse (list Movie)) (k : nat),
      1 <= k ->
      (forall p, 1 <= p <= k -> answers moviesApi (moviesUrl env p) (ep p)) ->
      (forall p, 1 <= p < k -> ~ stops (ep p)) ->
      stops (ep k) ->
      forall (fuel : nat) (log : Log),
        k < fuel ->
        Sitemap.fetchAllMovies env moviesApi fuel log
        = (Returns {| Sitemap.allMovies := flat_map (fun p => page_data (ep p)) (seq 1 k);
                      Sitemap.page := k;
                      Sitemap.hasMore := false |},
           (log ++ map (moviesUrl env) (seq 1 k))%list))
  /\ (forall (c : list Movie) (size : nat),
         0 < size ->
         let k := Nat.max 1 (Backend.pages_of (List.length c) size) in
         (forall p, 1 <= p <= k ->
                    answers moviesApi (moviesUrl env p) (Backend.paged c size p)) ->
         forall (fuel : nat) (log : Log),
           k < fuel ->
           Sitemap.fetchAllMovies env moviesApi fuel log
           = (Returns {| Sitemap.allMovies := c; Sitemap.page := k; Sitemap.hasMore := false |},
              (log ++ map (moviesUrl env) (seq 1 k))%list))
  /\ (forall c : list Movie,
         List.length c = 2568 ->
         (forall p, 1 <= p <= 6 ->
                    answers moviesApi (moviesUrl env p) (Backend.paged c 500 p)) ->
         forall (fuel : nat) (log : Log),
           6 < fuel ->
           exists v requests,
             Sitemap.fetchAllMovies env moviesApi fuel log = (Returns v, (log ++ requests)%list)
             /\ Sitemap.allMovies v = c
             /\ List.length (Sitemap.allMovies v) = 2568
             /\ requests = map (moviesUrl env) [1; 2; 3; 4; 5; 6]).
Proof.
  split; [|split].
  - intros ep k. apply aggregation_to_first_stop.
  - intros c size. apply paged_catalog_aggregated.
  - intros c Hlen Hans fuel log Hfuel.
    assert (Hk : Nat.max 1 (Backend.pages_of (List.length c) 500) = 6)
      by (rewrite Hlen; reflexivity).
    eexists _, _. split; [|split; [|split]].
    + apply (paged_catalog_aggregated c 500); rewrite ?Hk; try assumption; lia.
    + reflexivity.
    + exact Hlen.
    + rewrite Hk. reflexivity.
Qed.

(** C2. When the first movie request is answered with [success: false], the
    loop ends with no movie, having sent that one request; the only request
    that [fetchSitemapData] sends after it goes to the categories. *)
Theorem first_page_failure_ends_aggregation :
  forall (e : APIResponse (list Movie)),
    answers moviesApi (moviesUrl env 1) e ->
    success e = false ->
    forall (fuel : nat) (log : Log),
      1 < fuel ->
      Sitemap.fetchAllMovies env moviesApi fuel log
      = (Returns {| Sitemap.allMovies := []; Sitemap.page := 1; Sitemap.hasMore := false |},
         (log ++ [moviesUrl env 1])%list)
      /\ forall (categoriesApi : string -> FetchResult (APIResponse (list Category))),
         exists d,
           Sitemap.fetchSitemapData env moviesApi categoriesApi fuel log
           = (Returns d, (log ++ [moviesUrl env 1; categoriesUrl env])%list)
           /\ Sitemap.movies d = [].
Proof.
  intros e Hans Hfail fuel log Hfuel.
  assert (Hloop : Sitemap.fetchAllMovies env moviesApi fuel log
                  = (Returns {| Sitemap.allMovies := []; Sitemap.page := 1;
                                Sitemap.hasMore := false |},
                     (log ++ [moviesUrl env 1])%list)).
  { rewrite (aggregation_to_first_stop env moviesApi (fun _ => e) 1); try lia.
    - cbn [seq flat_map map]. unfold page_data. rewrite Hfail. reflexivity.
    - intros p Hp. replace p with 1 by lia. exact Hans.
    - left. exact Hfail. }
  split; [exact Hloop|].
  intros categoriesApi.
  unfold Sitemap.fetchSitemapData, try_catch, bind at 1. rewrite Hloop.
  unfold bind, fetch, json, settle. fold (categoriesUrl env).
  rewrite <- app_assoc. cbn [app].
  destruct (categoriesApi (categoriesUrl env)) as [err|[st [err|j]]]; cbn;
    eexists; split; reflexivity.
Qed.

(** C9. A successful, non-empty page that carries no [pagination] object is
    appended and ends the loop with no further request. *)
Theorem missing_pagination_ends_aggregation :
  forall (v : Sitemap.LoopVars) (e : APIResponse (list Movie)) (d : list Movie),
    Sitemap.hasMore v = true ->
    answers moviesApi (moviesUrl env (Sitemap.page v)) e ->
    success e = true ->
    data e = Some d ->
    d <> [] ->
    pagination e = None ->
    forall (fuel : nat) (log : Log),
      1 < fuel ->
      while fuel Sitemap.hasMore (Sitemap.loop_body env moviesApi) v log
      = (Returns {| Sitemap.allMovies := (Sitemap.allMovies v ++ d)%list;
                    Sitemap.page := Sitemap.page v;
                    Sitemap.hasMore := false |},
         (log ++ [moviesUrl env (Sitemap.page v)])%list).
Proof.
  intros v e d Hmore Hans Hs Hd Hne Hpag fuel log Hfuel.
  rewrite (loop_runs_to_first_stop env moviesApi (fun _ => e) 0); try assumption; try lia.
  - cbn [seq flat_map map]. unfold page_data, data_of. rewrite Hs, Hd, app_nil_r, Nat.add_0_r.
    reflexivity.
  - intros i Hi. replace (Sitemap.page v + i) with (Sitemap.page v) by lia. exact Hans.
  - right. right. unfold next_of. now rewrite Hpag.
Qed.

End AggregationFacts.

Lemma aggregation_is_exhaustive_witness :
  List.length (Backend.catalog 2568) = 2568
  /\ exists v requests,
       Sitemap.fetchAllMovies Backend.env0
         (Backend.movies_api (Backend.paged (Backend.catalog 2568) 500) 6) 7 []
       = (Returns v, ([] ++ requests)%list)
       /\ Sitemap.allMovies v = Backend.catalog 2568
       /\ List.length (Sitemap.allMovies v) = 2568
       /\ requests = map (SitemapSpec.moviesUrl Backend.env0) [1; 2; 3; 4; 5; 6].
Proof.
  split; [reflexivity|].
  apply (proj2 (proj2 (aggregation_is_exhaustive Backend.env0 _)) (Backend.catalog 2568)).
  - reflexivity.
  - intros p Hp.
    destruct p as [|[|[|[|[|[|[|p]]]]]]]; try lia; exists 200; reflexivity.
  - lia.
Defined.

Lemma first_page_failure_ends_aggregation_witness :
  Sitemap.fetchAllMovies Backend.env0
    (Backend.movies_api (fun _ => Backend.envelope false None None) 1) 2 []
  = (Returns {| Sitemap.allMovies := []; Sitemap.page := 1; Sitemap.hasMore := false |},
     ([] ++ [SitemapSpec.moviesUrl Backend.env0 1])%list)
  /\ forall categoriesApi : string -> FetchResult (APIResponse (list Category)),
     exists d,
       Sitemap.fetchSitemapData Backend.env0
         (Backend.movies_api (fun _ => Backend.envelope false None None) 1) categoriesApi 2 []
       = (Returns d, ([] ++ [SitemapSpec.moviesUrl Backend.env0 1;
                             SitemapSpec.categoriesUrl Backend.env0])%list)
       /\ Sitemap.movies d = [].
Proof.
  apply (first_page_failure_ends_aggregation Backend.env0 _ (Backend.envelope false None None)).
  - exists 200. reflexivity.
  - reflexivity.
  - lia.
Defined.

Lemma missing_pagination_ends_aggregation_witness :
  while 2 Sitemap.hasMore
    (Sitemap.loop_body Backend.env0
       (Backend.movies_api
          (fun _ => Backend.envelope true (Some [Backend.movie 1001 None]) None) 3))
    {| Sitemap.allMovies := Backend.catalog 2; Sitemap.page := 3; Sitemap.hasMore := true |} []
  = (Returns {| Sitemap.allMovies := (Backend.catalog 2 ++ [Backend.movie 1001 None])%list;
                Sitemap.page := 3;
                Sitemap.hasMore := false |},
     ([] ++ [SitemapSpec.moviesUrl Backend.env0 3])%list).
Proof.
  apply (missing_pagination_ends_aggregation Backend.env0 _
           {| Sitemap.allMovies := Backend.catalog 2; Sitemap.page := 3;
              Sitemap.hasMore := true |}
           (Backend.envelope true (Some [Backend.movie 1001 None]) None)
           [Backend.movie 1001 None]).
  - reflexivity.
  - exists 200. reflexivity.
  - reflexivity.
  - reflexivity.
  - discriminate.
  - reflexivity.
  - lia.
Defined.

(** ** The document *)

Lemma join_app (a b : list string) :
  SitemapSpec.join (a ++ b) = SitemapSpec.join a ++ SitemapSpec.join b.
Proof.
  unfold SitemapSpec.join.
  induction a as [|x a IH]; [reflexivity|].
  cbn [app fold_right]. rewrite IH. now rewrite append_assoc.
Qed.

(** A [forEach] whose callback appends to [sitemap] appends the pieces in
    the order of the array. *)
Lemma forEach_appends {A} (f : string -> A -> string) (g : A -> string) (l : list A) :
  (forall s x, f s x = s ++ g x) ->
  forall init, Sitemap.forEach l f init = init ++ SitemapSpec.join (map g l).
Proof.
  intros Hf. unfold Sitemap.forEach.
  unfold SitemapSpec.join.
  induction l as [|x l IH]; intros init; cbn [map fold_left fold_right].
  - now rewrite append_nil_r.
  - rewrite IH, Hf. now rewrite append_assoc.
Qed.

Section DocumentFacts.

Import SitemapSpec.

Variable env : Env.
Variable moviesApi : string -> FetchResult (APIResponse (list Movie)).
Variable categoriesApi : string -> FetchResult (APIResponse (list Category)).
Variable now : string.

(** [GET] on the lists that [fetchSitemapData] has produced: the document
    of the specification for these lists, served with status 200. *)
Lemma GET_renders (fuel : nat) (log log' : Log) (ms : list Movie) (cs : list Category) :
  Sitemap.fetchSitemapData env moviesApi categoriesApi fuel log
  = (Returns {| Sitemap.movies := ms; Sitemap.categories := Some cs |}, log') ->
  Sitemap.GET env moviesApi categoriesApi now fuel log
  = (Returns (served (document now (entries env cs ms))), log').
Proof.
  intros Hdata. unfold Sitemap.GET, bind at 1. rewrite Hdata.
  cbn [Sitemap.categories Sitemap.movies]. unfold bind, ret.
  f_equal. f_equal. unfold served. f_equal.
  fold (baseUrl env). fold (today now).
  rewrite (forEach_appends _ (fun p => render_entry now (static_entry env p))).
  2:{ intros s p. unfold render_entry, static_entry. cbn [loc frequency weight image render_image].
      rewrite !append_assoc. reflexivity. }
  rewrite (forEach_appends _ (fun c => render_entry now (category_entry env c))).
  2:{ intros s c. unfold render_entry, category_entry.
      cbn [loc frequency weight image render_image].
      rewrite !append_assoc. reflexivity. }
  rewrite (forEach_appends _ (fun m => render_entry now (movie_entry env m))).
  2:{ intros s m. unfold render_entry, movie_entry.
      cbn [loc frequency weight image render_image].
      destruct (thumbnail m) as [[|c t]|]; cbn [truthy render_image];
        rewrite ?escapeXml_escaped, !append_assoc; reflexivity. }
  unfold document, entries. cbn [map join fold_right].
  rewrite !map_app, !join_app, !map_map.
  set (statics := join (map _ Sitemap.staticPages)).
  set (categories := join (map _ cs)).
  set (movies := join (map _ ms)).
  unfold render_entry, root_entry, prolog.
  cbn [loc frequency weight image render_image].
  rewrite !append_assoc. reflexivity.
Qed.

(** [fetchSitemapData] never throws: a fault inside its [try] block ends in
    the value of its [catch] block. *)
Lemma fetchSitemapData_never_throws (fuel : nat) (log : Log) :
  forall err log',
    Sitemap.fetchSitemapData env moviesApi categoriesApi fuel log <> (Throws err, log').
Proof.
  intros err log'. unfold Sitemap.fetchSitemapData, try_catch.
  match goal with
  | |- context [match ?m with _ => _ end] => destruct m as [[d|e|] l]
  end; unfold ret; intros H; inversion H.
Qed.

(** What [fetchSitemapData] makes of the loop's result and of the answer of
    the category endpoint. *)
Lemma sitemap_data_of_answers (fuel : nat) (log log1 : Log) (v : Sitemap.LoopVars)
    (e : APIResponse (list Category)) :
  Sitemap.fetchAllMovies env moviesApi fuel log = (Returns v, log1) ->
  answers categoriesApi (categoriesUrl env) e ->
  Sitemap.fetchSitemapData env moviesApi categoriesApi fuel log
  = (Returns {| Sitemap.movies := Sitemap.allMovies v;
                Sitemap.categories := if success e then data e else Some [] |},
     (log1 ++ [categoriesUrl env])%list).
Proof.
  intros Hloop [st Hans].
  unfold Sitemap.fetchSitemapData, try_catch, bind at 1. rewrite Hloop.
  unfold bind, fetch, json, settle. fold (categoriesUrl env). rewrite Hans. reflexivity.
Qed.



(** What [GET] writes for the lists that were fetched, entry by entry: one
    entry for the root URL, the six static pages, one entry per category at
    [/category/{id}/{slug}] and one entry per movie at [/{slug}], in this
    order and nothing else; the entry of a movie carries an image block
    exactly when its thumbnail is a non-empty string, and the block holds
    the escaped thumbnail and title. *)
Lemma sitemap_has_one_entry_per_page :
  forall (fuel : nat) (log log' : Log) (ms : list Movie) (cs : list Category),
    Sitemap.fetchSitemapData env moviesApi categoriesApi fuel log
    = (Returns {| Sitemap.movies := ms; Sitemap.categories := Some cs |}, log') ->
    let page := fun (path changefreq priority : string) =>
      {| loc := baseUrl env ++ path; frequency := changefreq; weight := priority;
         image := None |} in
    Sitemap.GET env moviesApi categoriesApi now fuel log
    = (Returns
         (served
            (document now
               ([ page "/" "daily" "1.0" ]
                ++ [ page "/page/privacy-policy" "monthly" "0.7";
                     page "/page/contact-us" "monthly" "0.7";
                     page "/page/about-us" "monthly" "0.7";
                     page "/page/dmca" "monthly" "0.7";
                     page "/page/how-to-download-movie" "monthly" "0.8";
                     page "/search" "weekly" "0.6" ]
                ++ map (fun c =>
                          page ("/category/" ++ string_of_Z (category_id c)
                                ++ "/" ++ category_slug c)%string "weekly" "0.9") cs
                ++ map (fun m =>
                          {| loc := (baseUrl env ++ "/" ++ slug m)%string;
                             frequency := "weekly"; weight := "0.8";
                             image :=
                               match thumbnail m with
                               | Some (String c t) =>
                                   Some (Sitemap.escapeXml (String c t),
                                         Sitemap.escapeXml (title m))
                               | _ => None
                               end |}) ms)%list)),
       log').
Proof.
  intros fuel log log' ms cs Hdata page.
  rewrite (GET_renders fuel log log' ms cs Hdata).
  assert (Hcs : map (category_entry env) cs
                = map (fun c =>
                         page ("/category/" ++ string_of_Z (category_id c)
                               ++ "/" ++ category_slug c) "weekly" "0.9") cs)
    by (apply map_ext; intros c; reflexivity).
  assert (Hms : map (movie_entry env) ms
                = map (fun m =>
                         {| loc := baseUrl env ++ "/" ++ slug m;
                            frequency := "weekly"; weight := "0.8";
                            image :=
                              match thumbnail m with
                              | Some (String c t) =>
                                  Some (Sitemap.escapeXml (String c t),
                                        Sitemap.escapeXml (title m))
                              | _ => None
                              end |}) ms).
  { apply map_ext. intros m. unfold movie_entry. f_equal.
    destruct (thumbnail m) as [[|c t]|]; cbn [truthy]; rewrite ?escapeXml_escaped;
      reflexivity. }
  unfold entries. rewrite Hcs, Hms. reflexivity.
Qed.


End DocumentFacts.

(** ** Well-formedness of the document *)

Section WellFormedFacts.

Import Xml SitemapSpec.

(** The lexer moves a run of text, and a run of tag characters, to the
    pending characters. *)
Lemma snoc_app (cur : string) (c : ascii) (t : string) :
  snoc cur c ++ t = cur ++ String c t.
Proof. unfold snoc. now rewrite append_assoc. Qed.

Lemma lex_text_run (t : string) :
  all_chars (fun c => negb (Ascii.eqb c "<")) t = true ->
  forall cur s, lex InText cur (t ++ s) = lex InText (cur ++ t) s.
Proof.
  induction t as [|c t IH]; intros Ht cur s.
  - now rewrite append_nil_r.
  - cbn [all_chars] in Ht. apply andb_prop in Ht. destruct Ht as [Hc Ht].
    cbn [append lex]. apply negb_true_iff in Hc. rewrite Hc.
    rewrite (IH Ht). now rewrite snoc_app.
Qed.

Lemma lex_tag_run (g : string) :
  all_chars tag_char g = true ->
  forall cur s, lex InTag cur (g ++ s) = lex InTag (cur ++ g) s.
Proof.
  induction g as [|c g IH]; intros Hg cur s.
  - now rewrite append_nil_r.
  - cbn [all_chars] in Hg. apply andb_prop in Hg. destruct Hg as [Hc Hg].
    unfold tag_char in Hc. apply negb_true_iff in Hc.
    apply orb_false_elim in Hc. destruct Hc as [Hc Hq'].
    apply orb_false_elim in Hc. destruct Hc as [Hc Hq].
    apply orb_false_elim in Hc. destruct Hc as [Hlt Hgt].
    cbn [append lex]. rewrite Hlt, Hgt, Hq, Hq'. cbn [orb].
    rewrite (IH Hg). now rewrite snoc_app.
Qed.

(** The checker on a piece of text, on a tag, and along a document given
    as pieces. *)
Lemma nesting_flush (open : list string) (rooted : bool) (cur : string) (ts : list token) :
  nesting_ok open rooted (flush cur ts)
  = (text_valid open cur && nesting_ok open rooted ts)%bool.
Proof.
  destruct cur as [|c cur]; [|reflexivity].
  cbn [flush]. destruct open; reflexivity.
Qed.

Lemma check_text (t : string) (cur : string) (open : list string) (rooted : bool) (s : string) :
  all_chars (fun c => negb (Ascii.eqb c "<")) t = true ->
  check InText cur open rooted (t ++ s) = check InText (cur ++ t) open rooted s.
Proof. intros Ht. unfold check. now rewrite lex_text_run. Qed.

Lemma check_tag (g : string) (cur : string) (open : list string) (rooted : bool) (s : string) :
  all_chars tag_char g = true ->
  check InText cur open rooted (String "<" (g ++ String ">" s))
  = (text_valid open cur
     && after_tag g open rooted
          (fun open' rooted' => check InText EmptyString open' rooted' s))%bool.
Proof.
  intros Hg. unfold check, after_tag. cbn [lex Ascii.eqb Bool.eqb].
  rewrite (lex_tag_run g Hg). cbn [append lex Ascii.eqb Bool.eqb].
  destruct (lex InText EmptyString s) as [ts|]; cbn [option_map].
  - rewrite nesting_flush. cbn [nesting_ok]. reflexivity.
  - destruct (classify g); try destruct open; rewrite ?andb_false_r; reflexivity.
Qed.

Lemma check_markup (ts : list token) :
  forallb token_plain ts = true ->
  forall cur open rooted s,
    check InText cur open rooted (markup ts s)
    = walk ts cur open rooted (fun cur' open' rooted' => check InText cur' open' rooted' s).
Proof.
  induction ts as [|[t|g] ts IH]; intros Hts cur open rooted s.
  - reflexivity.
  - cbn [forallb token_plain] in Hts. apply andb_prop in Hts. destruct Hts as [Ht Hts].
    cbn [markup walk]. rewrite (check_text t _ _ _ _ Ht). apply (IH Hts).
  - cbn [forallb token_plain] in Hts. apply andb_prop in Hts. destruct Hts as [Hg Hts].
    cbn [markup walk]. rewrite (check_tag g _ _ _ _ Hg).
    f_equal. unfold after_tag.
    destruct (classify g); try reflexivity.
    + now rewrite (IH Hts).
    + now rewrite (IH Hts).
    + destruct open; [reflexivity|]. now rewrite (IH Hts).
Qed.

(** An entry is the markup of its pieces. *)
Lemma render_entry_markup (now : string) (e : UrlEntry) (s : string) :
  render_entry now e ++ s = markup (entry_tokens now e) s.
Proof.
  unfold render_entry, entry_tokens, render_image, image_tokens.
  destruct (image e) as [[l t]|]; cbn [markup app]; rewrite !append_assoc; reflexivity.
Qed.

Lemma walk_start (g name : string) (r : list token) (cur : string) (open : list string)
    (rooted : bool) (k : string -> list string -> bool -> bool) :
  classify g = Start name ->
  walk (Tag g :: r) cur open rooted k
  = (text_valid open cur
     && (root_ok open rooted && walk r EmptyString (name :: open) true k))%bool.
Proof. intros H. cbn [walk]. unfold after_tag. now rewrite H. Qed.

Lemma walk_end (g name : string) (r : list token) (cur : string) (open : list string)
    (rooted : bool) (k : string -> list string -> bool -> bool) :
  classify g = End_ name ->
  walk (Tag g :: r) cur (name :: open) rooted k
  = (text_valid (name :: open) cur && walk r EmptyString open rooted k)%bool.
Proof. intros H. cbn [walk]. unfold after_tag. now rewrite H, String.eqb_refl. Qed.

Lemma walk_text (t : string) (r : list token) (cur : string) (open : list string)
    (rooted : bool) (k : string -> list string -> bool -> bool) :
  walk (Text t :: r) cur open rooted k = walk r (cur ++ t) open rooted k.
Proof. reflexivity. Qed.

Ltac walk_steps :=
  repeat first
    [ rewrite walk_text
    | erewrite walk_start by (vm_compute; reflexivity)
    | erewrite walk_end by (vm_compute; reflexivity) ].

(** Text without [>] does not hold the end mark of a CDATA section. *)
Lemma no_gt_cdata_free (t : string) : no_gt t = true -> cdata_free t = true.
Proof.
  unfold no_gt. induction t as [|c t IH]; intros Ht; [reflexivity|].
  cbn [all_chars] in Ht. apply andb_prop in Ht. destruct Ht as [Hc Ht].
  cbn [cdata_free]. rewrite (IH Ht), andb_true_r. apply negb_true_iff.
  destruct t as [|c2 [|c3 t]]; cbn [String.prefix];
    repeat match goal with
           | |- context [ascii_dec ?a ?b] => destruct (ascii_dec a b); try reflexivity
           end.
  subst. cbn [all_chars] in Ht. rewrite andb_false_r in Ht. discriminate.
Qed.

Lemma content_parts (t : string) :
  content t = true -> no_lt t = true /\ chardata_ok t = true.
Proof.
  unfold content, marks_ok, chardata_ok. intros H.
  apply andb_prop in H. destruct H as [H Hu].
  apply andb_prop in H. destruct H as [H Ht].
  apply andb_prop in H. destruct H as [Hlt Hgt].
  split; [exact Hlt|]. now rewrite Ht, Hu, (no_gt_cdata_free t Hgt).
Qed.

(** An entry whose fields are content leaves the checker where it found
    it: inside [urlset], a line feed pending. *)
Lemma entry_checks (now : string) (e : UrlEntry) (s : string) :
  content (today now) = true ->
  entry_ok e = true ->
  check InText Sitemap.nl ["urlset"] true (render_entry now e ++ s)
  = check InText Sitemap.nl ["urlset"] true s.
Proof.
  intros Hnow He. unfold entry_ok in He.
  apply andb_prop in He. destruct He as [He Himg].
  apply andb_prop in He. destruct He as [He Hw].
  apply andb_prop in He. destruct He as [Hl Hf].
  apply content_parts in Hnow, Hl, Hf, Hw.
  destruct Hnow as [Hnow1 Hnow2], Hl as [Hl1 Hl2], Hf as [Hf1 Hf2], Hw as [Hw1 Hw2].
  rewrite render_entry_markup, check_markup.
  - unfold entry_tokens, image_tokens.
    destruct (image e) as [[l t]|]; cbn [app].
    + cbn [image_ok] in Himg.
      apply andb_prop in Himg. destruct Himg as [Hil Hit].
      apply content_parts in Hil, Hit. destruct Hil as [Hil1 Hil2], Hit as [Hit1 Hit2].
      walk_steps. cbn [walk text_valid root_ok append].
      rewrite Hl2, Hnow2, Hf2, Hw2, Hil2, Hit2. reflexivity.
    + walk_steps. cbn [walk text_valid root_ok append].
      rewrite Hl2, Hnow2, Hf2, Hw2. reflexivity.
  - unfold entry_tokens, image_tokens. rewrite !forallb_app.
    cbn [forallb token_plain]. rewrite Hl1, Hnow1, Hf1, Hw1.
    destruct (image e) as [[l t]|]; cbn [forallb token_plain].
    + cbn [image_ok] in Himg.
      apply andb_prop in Himg. destruct Himg as [Hil Hit].
      apply content_parts in Hil, Hit. destruct Hil as [Hil1 Hil2], Hit as [Hit1 Hit2].
      rewrite Hil1, Hit1. reflexivity.
    + reflexivity.
Qed.

Lemma entries_check (now : string) (es : list UrlEntry) (s : string) :
  content (today now) = true ->
  forallb entry_ok es = true ->
  check InText Sitemap.nl ["urlset"] true
    (join (map (render_entry now) es) ++ s)
  = check InText Sitemap.nl ["urlset"] true s.
Proof.
  intros Hnow. induction es as [|e es IH]; intros Hes; [reflexivity|].
  cbn [forallb] in Hes. apply andb_prop in Hes. destruct Hes as [He Hes].
  unfold join in *. cbn [map fold_right]. rewrite append_assoc.
  rewrite (entry_checks now e _ Hnow He). exact (IH Hes).
Qed.

(** The two tags that open the document lead into [urlset]. *)
Lemma prolog_lex (s : string) :
  lex InText EmptyString (prolog ++ s)
  = option_map (flush EmptyString)
      (option_map (cons (Tag declaration))
         (option_map (flush Sitemap.nl)
            (option_map (cons (Tag urlset))
               (lex InText Sitemap.nl s)))).
Proof. vm_compute. reflexivity. Qed.

Lemma prolog_check (s : string) :
  well_formed (prolog ++ s)
  = check InText Sitemap.nl ["urlset"] true s.
Proof.
  unfold well_formed, check. rewrite prolog_lex.
  destruct (lex InText Sitemap.nl s) as [ts|]; [|reflexivity].
  cbn [option_map flush Sitemap.nl]. unfold document_ok.
  assert (Hd : classify declaration = Declaration) by (vm_compute; reflexivity).
  assert (Hu : classify urlset = Start "urlset") by (vm_compute; reflexivity).
  rewrite Hd. cbn [nesting_ok]. rewrite Hu. reflexivity.
Qed.

Lemma document_check (now : string) (es : list UrlEntry) :
  content (today now) = true ->
  forallb entry_ok es = true ->
  well_formed (document now es) = true.
Proof.
  intros Hnow Hes. unfold document.
  rewrite prolog_check, (entries_check now es _ Hnow Hes).
  vm_compute. reflexivity.
Qed.

(** What is content: plain strings, printed integers, escaped legal
    strings, and what is appended from content. *)
Lemma all_chars_app (p : ascii -> bool) (a b : string) :
  all_chars p (a ++ b) = (all_chars p a && all_chars p b)%bool.
Proof.
  induction a as [|c a IH]; [reflexivity|].
  cbn [append all_chars]. now rewrite IH, andb_assoc.
Qed.

Lemma text_ok_app (a b : string) :
  forall r, text_ok r a = true -> text_ok r (a ++ b) = text_ok None b.
Proof.
  induction a as [|c a IH]; intros r Ha.
  - destruct r; [discriminate|reflexivity].
  - cbn [append text_ok] in *. destruct r as [name|].
    + destruct (Ascii.eqb c ";").
      * apply andb_prop in Ha. destruct Ha as [Hr Ha]. rewrite Hr. cbn [andb]. now apply IH.
      * now apply IH.
    + destruct (Ascii.eqb c "&"); [now apply IH|].
      apply andb_prop in Ha. destruct Ha as [Hc Ha]. rewrite Hc. cbn [andb]. now apply IH.
Qed.

Lemma marks_app (a b : string) :
  marks_ok a = true -> marks_ok b = true -> marks_ok (a ++ b) = true.
Proof.
  unfold marks_ok, no_lt, no_gt. intros Ha Hb.
  apply andb_prop in Ha, Hb. destruct Ha as [Ha Ha3], Hb as [Hb Hb3].
  apply andb_prop in Ha, Hb. destruct Ha as [Ha1 Ha2], Hb as [Hb1 Hb2].
  now rewrite !all_chars_app, Ha1, Hb1, Ha2, Hb2, (text_ok_app a b None Ha3), Hb3.
Qed.

Lemma utf8_app (a b : string) :
  forall st, utf8 st a = true -> utf8_ok b = true -> utf8 st (a ++ b) = true.
Proof.
  induction a as [|c a IH]; intros st Ha Hb.
  - destruct st; try discriminate. exact Hb.
  - cbn [append utf8] in *. destruct (utf8_step st c); [|discriminate]. now apply IH.
Qed.

Lemma content_app (a b : string) :
  content a = true -> content b = true -> content (a ++ b) = true.
Proof.
  unfold content. intros Ha Hb.
  apply andb_prop in Ha, Hb. destruct Ha as [Ha1 Ha2], Hb as [Hb1 Hb2].
  rewrite (marks_app a b Ha1 Hb1). exact (utf8_app a b Lead Ha2 Hb2).
Qed.

Lemma plain_marks (s : string) : all_chars plain_char s = true -> marks_ok s = true.
Proof.
  unfold marks_ok, no_lt, no_gt. induction s as [|c s IH]; intros Hs; [reflexivity|].
  cbn [all_chars text_ok] in *. apply andb_prop in Hs. destruct Hs as [Hc Hs].
  unfold plain_char in Hc.
  apply andb_prop in Hc. destruct Hc as [Hc Hgt].
  apply andb_prop in Hc. destruct Hc as [Hc Hamp].
  apply andb_prop in Hc. destruct Hc as [Hok Hlt].
  specialize (IH Hs). apply andb_prop in IH. destruct IH as [IH IH3].
  apply andb_prop in IH. destruct IH as [IH1 IH2].
  apply negb_true_iff in Hamp. rewrite Hamp, Hlt, Hgt, Hok, IH1, IH2, IH3. reflexivity.
Qed.

Lemma plain_content (s : string) : plain s = true -> content s = true.
Proof.
  unfold plain, content. intros Hs. apply andb_prop in Hs. destruct Hs as [Hc Hu].
  now rewrite (plain_marks s Hc), Hu.
Qed.

(** Plain ASCII is plain. *)
Lemma plain_ascii_plain (s : string) : all_chars plain_ascii s = true -> plain s = true.
Proof.
  unfold plain, utf8_ok. induction s as [|c s IH]; intros Hs; [reflexivity|].
  cbn [all_chars utf8 utf8_step] in *. apply andb_prop in Hs. destruct Hs as [Hc Hs].
  unfold plain_ascii in Hc. apply andb_prop in Hc. destruct Hc as [Hp Ha].
  rewrite Hp, Ha. exact (IH Hs).
Qed.

Lemma digits_plain (d : Decimal.uint) :
  all_chars plain_ascii (NilEmpty.string_of_uint d) = true.
Proof. induction d; cbn; try assumption; reflexivity. Qed.

Lemma string_of_Z_plain (z : Z) : plain (string_of_Z z) = true.
Proof.
  apply plain_ascii_plain.
  unfold string_of_Z, NilZero.string_of_int, NilZero.string_of_uint.
  destruct (Z.to_int z) as [d|d].
  - destruct d; try reflexivity; apply (digits_plain (_ d)).
  - destruct d; try reflexivity; cbn [all_chars]; apply (digits_plain (_ d)).
Qed.

Lemma entity_marks (c : ascii) :
  char_ok c = true -> marks_ok (entity c) = true.
Proof.
  intros Hc. unfold entity.
  destruct (Ascii.eqb c "&") eqn:Hamp; [reflexivity|].
  destruct (Ascii.eqb c "<") eqn:Hlt; [reflexivity|].
  destruct (Ascii.eqb c ">") eqn:Hgt; [reflexivity|].
  destruct (Ascii.eqb c "034"); [reflexivity|].
  destruct (Ascii.eqb c "'"); [reflexivity|].
  unfold marks_ok, no_lt, no_gt. cbn [all_chars text_ok]. now rewrite Hlt, Hgt, Hamp, Hc.
Qed.

Lemma escaped_marks (t : string) :
  all_chars char_ok t = true -> marks_ok (escaped t) = true.
Proof.
  induction t as [|c t IH]; intros Ht; [reflexivity|].
  cbn [all_chars escaped] in *. apply andb_prop in Ht. destruct Ht as [Hc Ht].
  apply marks_app; [now apply entity_marks | now apply IH].
Qed.

(** The five characters escaped are ASCII, and so are their entities: the
    escape of a text is UTF-8 where the text is. *)
Lemma utf8_entity (c : ascii) (r : string) (st : utf8_state) :
  utf8 st (entity c ++ r) = utf8 st (String c r).
Proof.
  unfold entity.
  destruct (Ascii.eqb_spec c "&") as [->|_]; [destruct st; vm_compute; reflexivity|].
  destruct (Ascii.eqb_spec c "<") as [->|_]; [destruct st; vm_compute; reflexivity|].
  destruct (Ascii.eqb_spec c ">") as [->|_]; [destruct st; vm_compute; reflexivity|].
  destruct (Ascii.eqb_spec c "034") as [->|_]; [destruct st; vm_compute; reflexivity|].
  destruct (Ascii.eqb_spec c "'") as [->|_]; [destruct st; vm_compute; reflexivity|].
  reflexivity.
Qed.

Lemma utf8_escaped (t : string) : forall st, utf8 st (escaped t) = utf8 st t.
Proof.
  induction t as [|c t IH]; intros st; [reflexivity|].
  cbn [escaped]. rewrite utf8_entity. cbn [utf8].
  destruct (utf8_step st c); [apply IH|reflexivity].
Qed.

Lemma escaped_content (t : string) :
  legal t = true -> content (escaped t) = true.
Proof.
  unfold legal, content, utf8_ok. intros Ht. apply andb_prop in Ht. destruct Ht as [Hc Hu].
  now rewrite (escaped_marks t Hc), utf8_escaped, Hu.
Qed.

Section CleanData.

Variable env : Env.
Variable now : string.

Hypothesis base_plain : plain (baseUrl env) = true.

Ltac content_pieces :=
  repeat first
    [ reflexivity
    | assumption
    | apply content_app
    | apply escaped_content; assumption
    | apply plain_content; first [assumption | apply string_of_Z_plain] ].

Lemma static_entries_ok : forallb entry_ok (map (static_entry env) Sitemap.staticPages) = true.
Proof.
  cbn [Sitemap.staticPages map forallb]. unfold entry_ok, static_entry.
  cbn [loc frequency weight image image_ok Sitemap.path Sitemap.changefreq Sitemap.priority].
  rewrite ?andb_true_iff; repeat split; content_pieces.
Qed.

Lemma category_entry_ok (c : Category) :
  plain (category_slug c) = true -> entry_ok (category_entry env c) = true.
Proof.
  intros Hs. unfold entry_ok, category_entry. cbn [loc frequency weight image image_ok].
  rewrite ?andb_true_iff; repeat split; content_pieces.
Qed.

Lemma movie_entry_ok (m : Movie) :
  plain (slug m) = true ->
  legal (title m) = true ->
  (forall t, thumbnail m = Some t -> legal t = true) ->
  entry_ok (movie_entry env m) = true.
Proof.
  intros Hs Ht Hth.
  assert (Himg : image_ok (image (movie_entry env m)) = true).
  { unfold movie_entry. cbn [image].
    destruct (thumbnail m) as [t|]; [|reflexivity].
    destruct (truthy (Some t)); [|reflexivity].
    cbn [image_ok]. specialize (Hth t eq_refl).
    rewrite ?andb_true_iff; repeat split; content_pieces. }
  unfold entry_ok. rewrite Himg. unfold movie_entry. cbn [loc frequency weight].
  rewrite ?andb_true_iff; repeat split; content_pieces.
Qed.

(** For data made of legal characters in UTF-8, with no [<], [&] or [>] in
    what goes into [<loc>] and [<lastmod>], the document is well-formed. *)
Theorem clean_document_well_formed (cs : list Category) (ms : list Movie) :
  plain (today now) = true ->
  (forall c, In c cs -> plain (category_slug c) = true) ->
  (forall m, In m ms ->
             plain (slug m) = true /\ legal (title m) = true
             /\ forall t, thumbnail m = Some t -> legal t = true) ->
  well_formed (document now (entries env cs ms)) = true.
Proof.
  intros Hnow Hcs Hms. apply document_check; [now apply plain_content|].
  unfold entries. cbn [forallb]. rewrite !forallb_app, static_entries_ok.
  assert (Hroot : entry_ok (root_entry env) = true).
  { unfold entry_ok, root_entry. cbn [loc frequency weight image image_ok].
    rewrite ?andb_true_iff; repeat split; content_pieces. }
  rewrite Hroot. cbn [andb]. apply andb_true_intro. split.
  - apply forallb_forall. intros e He. apply in_map_iff in He.
    destruct He as (c & <- & Hc). apply category_entry_ok. now apply Hcs.
  - apply forallb_forall. intros e He. apply in_map_iff in He.
    destruct He as (m & <- & Hm). destruct (Hms m Hm) as (H1 & H2 & H3).
    now apply movie_entry_ok.
Qed.

End CleanData.

End WellFormedFacts.

(** ** The elements of the document *)

Section CountFacts.

Import Xml SitemapSpec.

Lemma tags_flush (cur : string) (ts : list token) : tags_of (flush cur ts) = tags_of ts.
Proof. destruct cur; reflexivity. Qed.

(** The tags that the lexer finds do not depend on the text pending. *)
Lemma lex_tags_pending (s : string) :
  forall cur cur',
    option_map tags_of (lex InText cur s) = option_map tags_of (lex InText cur' s).
Proof.
  induction s as [|c s IH]; intros cur cur'.
  - cbn [lex option_map]. now rewrite !tags_flush.
  - cbn [lex]. destruct (Ascii.eqb c "<"); [|apply IH].
    destruct (lex InTag EmptyString s) as [ts|]; cbn [option_map]; [|reflexivity].
    now rewrite !tags_flush.
Qed.

Lemma tags_markup (ts : list token) :
  forallb token_plain ts = true ->
  forall cur s,
    option_map tags_of (lex InText cur (markup ts s))
    = option_map (app (tags_of ts)) (option_map tags_of (lex InText EmptyString s)).
Proof.
  induction ts as [|[t|g] ts IH]; intros Hts cur s.
  - cbn [markup tags_of flat_map app]. rewrite (lex_tags_pending s cur EmptyString).
    now destruct (lex InText EmptyString s).
  - cbn [forallb token_plain] in Hts. apply andb_prop in Hts. destruct Hts as [Ht Hts].
    cbn [markup]. rewrite (lex_text_run t Ht). apply (IH Hts).
  - cbn [forallb token_plain] in Hts. apply andb_prop in Hts. destruct Hts as [Hg Hts].
    cbn [markup lex Ascii.eqb Bool.eqb]. rewrite (lex_tag_run g Hg).
    cbn [append lex Ascii.eqb Bool.eqb].
    specialize (IH Hts EmptyString s).
    destruct (lex InText EmptyString (markup ts s)) as [r|];
      destruct (lex InText EmptyString s) as [r'|]; cbn [option_map] in *;
      try discriminate; try reflexivity.
    rewrite tags_flush. cbn [tags_of flat_map app]. injection IH as IH.
    fold (tags_of r). rewrite IH. reflexivity.
Qed.

Lemma markup_app (a b : list token) (s : string) :
  markup (a ++ b) s = markup a (markup b s).
Proof.
  induction a as [|[t|g] a IH]; cbn [app markup]; rewrite ?IH; reflexivity.
Qed.

Lemma entries_markup (now : string) (es : list UrlEntry) (s : string) :
  join (map (render_entry now) es) ++ s = markup (flat_map (entry_tokens now) es) s.
Proof.
  induction es as [|e es IH]; [reflexivity|].
  unfold join in *. cbn [map fold_right flat_map].
  now rewrite append_assoc, IH, render_entry_markup, markup_app.
Qed.

Lemma tags_of_app (a b : list token) : tags_of (a ++ b) = (tags_of a ++ tags_of b)%list.
Proof. apply flat_map_app. Qed.

(** The tags of the document: the two that open it, those of its entries,
    and the one that closes it. *)
Lemma document_tags (now : string) (es : list UrlEntry) (name : string) :
  forallb token_plain (flat_map (entry_tokens now) es) = true ->
  elements name (document now es)
  = Some (List.length
            (filter (opens name)
               (declaration :: urlset
                  :: tags_of (flat_map (entry_tokens now) es) ++ ["/urlset"])%list)).
Proof.
  intros Hes. unfold elements, document.
  rewrite entries_markup, prolog_lex.
  pose proof (tags_markup _ Hes Sitemap.nl "</urlset>") as Htags.
  destruct (lex InText Sitemap.nl (markup (flat_map (entry_tokens now) es) "</urlset>"))
    as [r|]; [|discriminate].
  cbn [option_map flush Sitemap.nl tags_of flat_map app] in *. fold (tags_of r).
  injection Htags as ->. reflexivity.
Qed.

(** The elements of a name are counted entry by entry. *)
Lemma count_entries (p : string -> bool) (now : string) (es : list UrlEntry) :
  List.length (filter p (tags_of (flat_map (entry_tokens now) es)))
  = list_sum (map (fun e => List.length (filter p (tags_of (entry_tokens now e)))) es).
Proof.
  induction es as [|e es IH]; [reflexivity|].
  cbn [flat_map map]. rewrite tags_of_app, filter_app, length_app, IH. reflexivity.
Qed.

Lemma list_sum_ones {A} (l : list A) : list_sum (map (fun _ => 1) l) = List.length l.
Proof.
  induction l as [|x l IH]; [reflexivity|].
  cbn [map length].
  change (list_sum (1 :: map (fun _ : A => 1) l)) with (1 + list_sum (map (fun _ : A => 1) l)).
  now rewrite IH.
Qed.

(** An entry opens one [url] element, and one [image:image] element where
    it has an image. *)
Lemma entry_opens_url (now : string) (e : UrlEntry) :
  List.length (filter (opens "url") (tags_of (entry_tokens now e))) = 1.
Proof. unfold entry_tokens. destruct (image e) as [[l t]|]; vm_compute; reflexivity. Qed.

Lemma entry_opens_image (now : string) (e : UrlEntry) :
  List.length (filter (opens "image:image") (tags_of (entry_tokens now e)))
  = match image e with Some _ => 1 | None => 0 end.
Proof. unfold entry_tokens. destruct (image e) as [[l t]|]; vm_compute; reflexivity. Qed.

Lemma no_lt_entity (c : ascii) : no_lt (entity c) = true.
Proof.
  unfold entity.
  destruct (Ascii.eqb c "&"); [reflexivity|].
  destruct (Ascii.eqb c "<") eqn:Hlt; [reflexivity|].
  destruct (Ascii.eqb c ">"); [reflexivity|].
  destruct (Ascii.eqb c "034"); [reflexivity|].
  destruct (Ascii.eqb c "'"); [reflexivity|].
  unfold no_lt. cbn [all_chars]. now rewrite Hlt.
Qed.

Lemma no_lt_escaped (t : string) : no_lt (escaped t) = true.
Proof.
  induction t as [|c t IH]; [reflexivity|].
  cbn [escaped]. pose proof (no_lt_entity c) as Hc.
  unfold no_lt in *. now rewrite all_chars_app, Hc, IH.
Qed.

Lemma no_lt_app (a b : string) : no_lt a = true -> no_lt b = true -> no_lt (a ++ b) = true.
Proof. unfold no_lt. intros Ha Hb. now rewrite all_chars_app, Ha, Hb. Qed.

Lemma no_lt_string_of_Z (z : Z) : no_lt (string_of_Z z) = true.
Proof. exact (proj1 (content_parts _ (plain_content _ (string_of_Z_plain z)))). Qed.

Lemma entry_tokens_plain (now : string) (e : UrlEntry) :
  no_lt (today now) = true ->
  no_lt (loc e) = true -> no_lt (frequency e) = true -> no_lt (weight e) = true ->
  match image e with
  | Some (l, t) => no_lt l = true /\ no_lt t = true
  | None => True
  end ->
  forallb token_plain (entry_tokens now e) = true.
Proof.
  intros Hnow Hl Hf Hw Hi. unfold entry_tokens, image_tokens. rewrite !forallb_app.
  cbn [forallb token_plain]. rewrite Hnow, Hl, Hf, Hw.
  destruct (image e) as [[l t]|]; cbn [forallb token_plain]; [|reflexivity].
  destruct Hi as [Hil Hit]. rewrite Hil, Hit. reflexivity.
Qed.

Section CleanCounts.

Variable env : Env.
Variable now : string.

Hypothesis base_free : no_lt (baseUrl env) = true.
Hypothesis now_free : no_lt (today now) = true.

Ltac free_pieces :=
  repeat first
    [ reflexivity
    | assumption
    | exact I
    | apply no_lt_app
    | apply no_lt_string_of_Z
    | apply no_lt_escaped ].

Lemma entries_tokens_plain (cs : list Category) (ms : list Movie) :
  (forall c, In c cs -> no_lt (category_slug c) = true) ->
  (forall m, In m ms -> no_lt (slug m) = true) ->
  forallb token_plain (flat_map (entry_tokens now) (entries env cs ms)) = true.
Proof.
  intros Hcs Hms. apply forallb_forall. intros t Ht.
  apply in_flat_map in Ht. destruct Ht as (e & He & Ht).
  assert (Hplain : forallb token_plain (entry_tokens now e) = true);
    [|exact (proj1 (forallb_forall _ _) Hplain t Ht)].
  clear t Ht. unfold entries in He. destruct He as [<-|He].
  - apply entry_tokens_plain; cbn [root_entry loc frequency weight image]; free_pieces.
  - apply in_app_or in He. destruct He as [He|He].
    + cbn [Sitemap.staticPages map] in He.
      repeat (destruct He as [<-|He];
              [apply entry_tokens_plain;
               cbn [static_entry loc frequency weight image Sitemap.path Sitemap.changefreq
                      Sitemap.priority]; free_pieces|]).
      destruct He.
    + apply in_app_or in He. destruct He as [He|He]; apply in_map_iff in He.
      * destruct He as (c & <- & Hc). specialize (Hcs c Hc).
        apply entry_tokens_plain; cbn [category_entry loc frequency weight image]; free_pieces.
      * destruct He as (m & <- & Hm). specialize (Hms m Hm).
        apply entry_tokens_plain; cbn [movie_entry loc frequency weight image]; free_pieces.
        destruct (thumbnail m) as [t|]; [|exact I].
        destruct (truthy (Some t)); [|exact I]. split; apply no_lt_escaped.
Qed.

(** For data that holds no [<] where it is written as it comes (the base
    URL, the date, the slugs), the document has as many [url] elements as
    there are pages: the root, the six static pages, the categories and the
    movies; and as many [image:image] elements as there are movies with a
    non-empty thumbnail. *)
Lemma clean_sitemap_counts_entries (cs : list Category) (ms : list Movie) :
  (forall c, In c cs -> no_lt (category_slug c) = true) ->
  (forall m, In m ms -> no_lt (slug m) = true) ->
  elements "url" (document now (entries env cs ms))
  = Some (1 + 6 + List.length cs + List.length ms)
  /\ elements "image:image" (document now (entries env cs ms))
     = Some (List.length (filter (fun m => truthy (thumbnail m)) ms)).
Proof.
  intros Hcs Hms.
  pose proof (entries_tokens_plain cs ms Hcs Hms) as Hplain.
  rewrite !(document_tags now _ _ Hplain). split; f_equal.
  - cbn [filter].
    replace (opens "url" declaration) with false by (vm_compute; reflexivity).
    replace (opens "url" urlset) with false by (vm_compute; reflexivity).
    rewrite filter_app, length_app, count_entries.
    rewrite (map_ext _ (fun _ => 1) (entry_opens_url now)), list_sum_ones.
    unfold entries. cbn [length]. rewrite !length_app, !length_map.
    cbn [Sitemap.staticPages length filter]. vm_compute (opens "url" "/urlset"). cbn [length].
    lia.
  - cbn [filter].
    replace (opens "image:image" declaration) with false by (vm_compute; reflexivity).
    replace (opens "image:image" urlset) with false by (vm_compute; reflexivity).
    rewrite filter_app, length_app, count_entries.
    rewrite (map_ext _ _ (entry_opens_image now)).
    vm_compute (opens "image:image" "/urlset"). cbn [filter length]. rewrite Nat.add_0_r.
    unfold entries. cbn [map list_sum fold_right root_entry image].
    rewrite !map_app, !list_sum_app, !map_map.
    cbn [Sitemap.staticPages map static_entry image list_sum fold_right Nat.add].
    assert (Hc : list_sum (map (fun c => match image (category_entry env c) with
                                         | Some _ => 1 | None => 0 end) cs) = 0).
    { clear. induction cs as [|c cs IH]; [reflexivity|]. exact IH. }
    rewrite Hc. cbn [Nat.add]. clear.
    induction ms as [|m ms IH]; [reflexivity|].
    cbn [map filter].
    change (list_sum (?x :: ?l)) with (x + list_sum l).
    rewrite IH. unfold movie_entry. cbn [image].
    destruct (thumbnail m) as [[|c t]|]; reflexivity.
Qed.

End CleanCounts.

End CountFacts.

Section ServedDocumentFacts.

Import SitemapSpec.

Variable env : Env.
Variable moviesApi : string -> FetchResult (APIResponse (list Movie)).
Variable categoriesApi : string -> FetchResult (APIResponse (list Category)).
Variable now : string.

(** What does hold of the served document: with a category list present and
    with data made of legal characters in UTF-8, free of [<], [&] and [>]
    where it goes into [<loc>] and [<lastmod>] as it comes (the base URL,
    the date, the slugs), [GET] serves a well-formed document. *)
Lemma GET_serves_well_formed_document
    (fuel : nat) (log log' : Log) (ms : list Movie) (cs : list Category) :
  Sitemap.fetchSitemapData env moviesApi categoriesApi fuel log
  = (Returns {| Sitemap.movies := ms; Sitemap.categories := Some cs |}, log') ->
  Xml.plain (baseUrl env) = true ->
  Xml.plain (today now) = true ->
  (forall c, In c cs -> Xml.plain (category_slug c) = true) ->
  (forall m, In m ms ->
             Xml.plain (slug m) = true /\ Xml.legal (title m) = true
             /\ forall t, thumbnail m = Some t -> Xml.legal t = true) ->
  exists document,
    Sitemap.GET env moviesApi categoriesApi now fuel log = (Returns (served document), log')
    /\ Xml.well_formed document = true.
Proof.
  intros Hdata Hbase Hnow Hcs Hms.
  exists (document now (entries env cs ms)). split.
  - now apply GET_renders.
  - now apply clean_document_well_formed.
Qed.

(** The loop has no bound of its own: against an endpoint whose every page
    announces a next one, it uses up whatever fuel it is given. *)
Lemma endless_pagination_exhausts_fuel (ep : nat -> APIResponse (list Movie)) :
  (forall p, answers moviesApi (moviesUrl env p) (ep p)) ->
  (forall p, ~ stops (ep p)) ->
  forall (fuel : nat) (v : Sitemap.LoopVars) (log : Log),
    Sitemap.hasMore v = true ->
    exists log',
      while fuel Sitemap.hasMore (Sitemap.loop_body env moviesApi) v log = (OutOfFuel, log').
Proof.
  intros Hans Hgo. induction fuel as [|fuel IH]; intros v log Hmore.
  - exists log. reflexivity.
  - cbn [while]. rewrite Hmore. unfold bind at 1.
    rewrite (turn_continues env moviesApi v (ep (Sitemap.page v)) log (Hans _) (Hgo _)).
    apply IH. exact Hmore.
Qed.

End ServedDocumentFacts.

(** ** The endpoint on concrete answers *)



(** C7 fails on a category answer [{success: true}] that carries no data:
    [categories] is then [undefined], [categories.forEach] throws outside
    the [try] block of [fetchSitemapData], and [GET] rejects instead of
    serving a document. *)
Theorem GET_throws_without_category_data :
  Sitemap.GET Backend.env0
    (Backend.movies_api (Backend.paged (Backend.catalog 3) 500) 1)
    (Backend.categories_api (Backend.replies 200 (Backend.envelope true None None)))
    Backend.noon 2 []
  = (Throws (Sitemap.TypeError_undefined "forEach"),
     [SitemapSpec.moviesUrl Backend.env0 1; SitemapSpec.categoriesUrl Backend.env0]).
Proof. vm_compute. reflexivity. Qed.

(** C4 fails on a slug with an ampersand: the slug goes into [<loc>] as it
    is, and the document served is not well-formed. *)
Theorem unescaped_slug_breaks_document :
  exists reply log,
    Sitemap.GET Backend.env0
      (Backend.movies_api
         (fun _ => Backend.envelope true
                     (Some [Backend.with_slug "tom-&-jerry" (Backend.movie 1 None)])
                     (Some false)) 1)
      (Backend.categories_api (Backend.replies 200 (Backend.envelope true (Some []) None)))
      Backend.noon 2 []
    = (Returns reply, log)
    /\ Sitemap.reply_status reply = 200
    /\ Xml.well_formed (Sitemap.reply_body reply) = false.
Proof.
  do 2 eexists. split; [vm_compute; reflexivity|].
  split; vm_compute; reflexivity.
Qed.

(** C5 fails on a slug that carries markup: the slug goes into [<loc>] as
    it is, and the one movie of the list gives two [url] elements. The
    document served is well-formed and has nine [url] elements, where the
    root, the six static pages, no category and one movie make eight. *)
Theorem markup_in_slug_adds_an_entry :
  exists reply log,
    Sitemap.GET Backend.env0
      (Backend.movies_api
         (fun _ => Backend.envelope true
                     (Some [Backend.with_slug "a</loc></url><url><loc>https://filmyfly.work/b"
                              (Backend.movie 1 None)])
                     (Some false)) 1)
      (Backend.categories_api (Backend.replies 200 (Backend.envelope true (Some []) None)))
      Backend.noon 2 []
    = (Returns reply, log)
    /\ Sitemap.reply_status reply = 200
    /\ Xml.well_formed (Sitemap.reply_body reply) = true
    /\ Xml.elements "url" (Sitemap.reply_body reply) = Some (1 + 6 + 0 + 2).
Proof.
  do 2 eexists. split; [vm_compute; reflexivity|].
  split; [reflexivity|]. split; vm_compute; reflexivity.
Qed.

(** The same movie under a plain slug, with a title that holds the five
    special characters and with a thumbnail: the document is well-formed. *)
Example escaped_title_keeps_document_well_formed :
  exists reply log,
    Sitemap.GET Backend.env0
      (Backend.movies_api
         (fun _ => Backend.envelope true
                     (Some [Backend.with_title
                              ("Tom & <Jerry>'s " ++ Sitemap.dq ++ "best" ++ Sitemap.dq)
                              (Backend.movie 1 (Some "https://img.example/1.jpg?w=200&h=300"))])
                     (Some false)) 1)
      (Backend.categories_api
         (Backend.replies 200
            (Backend.envelope true (Some [Backend.genre_category 7 "action"]) None)))
      Backend.noon 2 []
    = (Returns reply, log)
    /\ Xml.well_formed (Sitemap.reply_body reply) = true.
Proof.
  do 2 eexists. split; [vm_compute; reflexivity|].
  vm_compute. reflexivity.
Qed.

(** The document of an unreachable backend: no category, no movie, and
    well-formed. *)
Example unreachable_backend_gives_near_empty_document :
  Sitemap.GET Backend.env0 (fun _ => Rejects Backend.network_failure)
    (fun _ => Rejects Backend.network_failure) Backend.noon 2 []
  = (Returns (SitemapSpec.served
                (SitemapSpec.document Backend.noon (SitemapSpec.entries Backend.env0 [] []))),
     [SitemapSpec.moviesUrl Backend.env0 1])
  /\ Xml.well_formed
       (SitemapSpec.document Backend.noon (SitemapSpec.entries Backend.env0 [] [])) = true.
Proof.
  split; vm_compute; reflexivity.
Qed.

Lemma GET_serves_well_formed_document_witness :
  exists document,
    Sitemap.GET Backend.env0
      (Backend.movies_api
         (fun _ => Backend.envelope true
                     (Some [Backend.with_title "Tom & <Jerry>"
                              (Backend.movie 1 (Some "https://img.example/1.jpg?w=200&h=300"));
                            Backend.movie 2 None])
                     (Some false)) 1)
      (Backend.categories_api
         (Backend.replies 200
            (Backend.envelope true (Some [Backend.genre_category 7 "action"]) None)))
      Backend.noon 2 []
    = (Returns (SitemapSpec.served document),
       [SitemapSpec.moviesUrl Backend.env0 1; SitemapSpec.categoriesUrl Backend.env0])
    /\ Xml.well_formed document = true.
Proof.
  apply (GET_serves_well_formed_document Backend.env0 _ _ Backend.noon 2 [] _
           [Backend.with_title "Tom & <Jerry>"
              (Backend.movie 1 (Some "https://img.example/1.jpg?w=200&h=300"));
            Backend.movie 2 None]
           [Backend.genre_category 7 "action"]).
  - reflexivity.
  - reflexivity.
  - reflexivity.
  - intros c [<-|[]]. reflexivity.
  - intros m [<-|[<-|[]]]; (split; [reflexivity|]); (split; [reflexivity|]);
      intros t Ht; inversion Ht; reflexivity.
Defined.

Lemma endless_pagination_exhausts_fuel_witness :
  exists log',
    while 3 Sitemap.hasMore
      (Sitemap.loop_body Backend.env0
         (fun _ => Backend.replies 200
                     (Backend.envelope true (Some [Backend.movie 1 None]) (Some true))))
      {| Sitemap.allMovies := []; Sitemap.page := 1; Sitemap.hasMore := true |} []
    = (OutOfFuel, log').
Proof.
  apply (endless_pagination_exhausts_fuel Backend.env0 _
           (fun _ => Backend.envelope true (Some [Backend.movie 1 None]) (Some true))).
  - intros p. exists 200. reflexivity.
  - intros p [H|[H|H]]; discriminate.
  - reflexivity.
Defined.

(** ** [escapeXml] as a function on texts *)

Section EscapeFacts.

Import SitemapSpec.

Lemma escaped_app (a b : string) : escaped (a ++ b) = escaped a ++ escaped b.
Proof.
  induction a as [|c a IH]; [reflexivity|].
  cbn [append escaped]. now rewrite IH, append_assoc.
Qed.

(** [escapeXml] can be applied piece by piece: the escape of a concatenation
    is the concatenation of the escapes. *)
Theorem escapeXml_distributes (a b : string) :
  Sitemap.escapeXml (a ++ b) = Sitemap.escapeXml a ++ Sitemap.escapeXml b.
Proof. rewrite !escapeXml_escaped. apply escaped_app. Qed.

Lemma entity_cases (c : ascii) :
  (c = "&"%char /\ entity c = "&amp;") \/ (c = "<"%char /\ entity c = "&lt;")
  \/ (c = ">"%char /\ entity c = "&gt;") \/ (c = "034"%char /\ entity c = "&quot;")
  \/ (c = "'"%char /\ entity c = "&apos;")
  \/ (~ special c /\ entity c = String c EmptyString).
Proof.
  unfold entity, special.
  destruct (Ascii.eqb_spec c "&"); [now left|].
  destruct (Ascii.eqb_spec c "<"); [now right; left|].
  destruct (Ascii.eqb_spec c ">"); [now right; right; left|].
  destruct (Ascii.eqb_spec c "034"); [now right; right; right; left|].
  destruct (Ascii.eqb_spec c "'"); [now right; right; right; right; left|].
  right; right; right; right; right. split; [tauto|reflexivity].
Qed.

Lemma entity_head_inj (c c' : ascii) (x y : string) :
  entity c ++ x = entity c' ++ y -> c = c' /\ x = y.
Proof.
  destruct (entity_cases c) as [[-> ->]|[[-> ->]|[[-> ->]|[[-> ->]|[[-> ->]|[Hc ->]]]]]];
  destruct (entity_cases c') as [[-> ->]|[[-> ->]|[[-> ->]|[[-> ->]|[[-> ->]|[Hc' ->]]]]]];
  cbn [append]; intros H; try (injection H as <-; (split; [reflexivity|assumption]));
  try discriminate;
  try (split; [reflexivity|]; now injection H);
  try (injection H; intros; subst; exfalso;
       first [apply Hc | apply Hc']; unfold special; tauto).
Qed.

Lemma escaped_injective (a : string) : forall b, escaped a = escaped b -> a = b.
Proof.
  induction a as [|c a IH]; intros [|c' b] H.
  - reflexivity.
  - exfalso. cbn [escaped] in H.
    destruct (entity_cases c') as [[_ E]|[[_ E]|[[_ E]|[[_ E]|[[_ E]|[_ E]]]]]];
      rewrite E in H; discriminate.
  - exfalso. cbn [escaped] in H.
    destruct (entity_cases c) as [[_ E]|[[_ E]|[[_ E]|[[_ E]|[[_ E]|[_ E]]]]]];
      rewrite E in H; discriminate.
  - cbn [escaped] in H. apply entity_head_inj in H. destruct H as [-> H].
    f_equal. now apply IH.
Qed.

Lemma length_append (a b : string) :
  String.length (a ++ b) = String.length a + String.length b.
Proof. induction a as [|c a IH]; [reflexivity|]. cbn [append String.length]. now rewrite IH. Qed.

Lemma entity_length (c : ascii) : 1 <= String.length (entity c).
Proof.
  destruct (entity_cases c) as [[_ E]|[[_ E]|[[_ E]|[[_ E]|[[_ E]|[_ E]]]]]];
    rewrite E; cbn; lia.
Qed.

Lemma escaped_length (t : string) : String.length t <= String.length (escaped t).
Proof.
  induction t as [|c t IH]; [reflexivity|].
  cbn [escaped String.length]. rewrite length_append.
  pose proof (entity_length c). lia.
Qed.

Lemma escaped_of_clean (t : string) :
  (forall c, special c -> ~ occurs c t) -> escaped t = t.
Proof.
  induction t as [|a rest IH]; intros Hclean; [reflexivity|].
  cbn [escaped]. rewrite entity_of_plain.
  - cbn [append]. f_equal. apply IH. intros c Hc Hocc. apply (Hclean c Hc). now right.
  - intros Ha. apply (Hclean a Ha). now left.
Qed.

Lemma escaped_fixed_is_clean (t : string) :
  escaped t = t -> forall c, special c -> ~ occurs c t.
Proof.
  induction t as [|a rest IH]; intros Hfix c Hc Hocc; [exact Hocc|].
  cbn [escaped] in Hfix.
  pose proof (escaped_length rest) as Hlen.
  destruct (entity_cases a) as [[-> E]|[[-> E]|[[-> E]|[[-> E]|[[-> E]|[Ha E]]]]]];
    rewrite E in Hfix; cbn [append] in Hfix; try discriminate.
  - injection Hfix as Hfix. apply (f_equal String.length) in Hfix.
    cbn [String.length] in Hfix. lia.
  - injection Hfix as Hfix. destruct Hocc as [<-|Hocc]; [exact (Ha Hc)|].
    exact (IH Hfix c Hc Hocc).
Qed.

(** [escapeXml] leaves a text as it is exactly when the text holds none of
    the five special characters, and escaping twice gives the same as
    escaping once exactly for those texts: every other text is escaped
    again, its ampersands included. *)
Theorem escapeXml_changes_what_it_must (t : string) :
  (Sitemap.escapeXml t = t <-> forall c, special c -> ~ occurs c t)
  /\ (Sitemap.escapeXml (Sitemap.escapeXml t) = Sitemap.escapeXml t
      <-> forall c, special c -> ~ occurs c t).
Proof.
  rewrite !escapeXml_escaped. split; split.
  - apply escaped_fixed_is_clean.
  - apply escaped_of_clean.
  - intros H. apply escaped_fixed_is_clean. now apply escaped_injective.
  - intros H. now rewrite (escaped_of_clean t H), (escaped_of_clean t H).
Qed.

(** [escapeXml] loses nothing: two different texts have different escapes. *)
Theorem escapeXml_injective (a b : string) :
  a <> b -> Sitemap.escapeXml a <> Sitemap.escapeXml b.
Proof.
  intros Hne Heq. apply Hne. rewrite !escapeXml_escaped in Heq.
  now apply escaped_injective.
Qed.

End EscapeFacts.

(** ** The loop under every behaviour of the upstream API *)

Section MonadFacts.

Context {S : Type}.
Variable cond : S -> bool.
Variable body : S -> M S.

Lemma while_more_fuel :
  forall (fuel fuel' : nat) (s : S) (log : Log) (c : completion S) (log' : Log),
    while fuel cond body s log = (c, log') ->
    c <> OutOfFuel ->
    fuel <= fuel' ->
    while fuel' cond body s log = (c, log').
Proof.
  induction fuel as [|fuel IH]; intros fuel' s log c log' Hrun Hc Hle.
  - cbn in Hrun. injection Hrun as <- <-. now contradiction Hc.
  - destruct fuel' as [|fuel']; [lia|].
    cbn [while] in *. destruct (cond s); [|exact Hrun].
    unfold bind in *. destruct (body s log) as [[s'|e|] log1]; try exact Hrun.
    apply (IH fuel' s' log1 c log' Hrun Hc). lia.
Qed.

Lemma while_ext (body' : S -> M S) :
  (forall s log, body s log = body' s log) ->
  forall fuel s log, while fuel cond body s log = while fuel cond body' s log.
Proof.
  intros Hext. induction fuel as [|fuel IH]; intros s log; [reflexivity|].
  cbn [while]. destruct (cond s); [|reflexivity].
  unfold bind. rewrite Hext. destruct (body' s log) as [[s'|e|] log1]; try reflexivity.
  apply IH.
Qed.

End MonadFacts.

Section LoopOutcomes.

Import SitemapSpec Behaviour.

Variable env : Env.
Variable moviesApi : string -> FetchResult (APIResponse (list Movie)).

Lemma stops_dec (e : APIResponse (list Movie)) : {stops e} + {~ stops e}.
Proof.
  unfold stops.
  destruct (success e); [|now left; left].
  destruct (data_of e) as [|m d]; [now left; right; left|].
  destruct (next_of e); [|now left; right; right].
  right. intros [H|[H|H]]; discriminate.
Qed.

(** What one turn does, whatever the endpoint does. *)
Lemma turn_outcome (v : Sitemap.LoopVars) (log : Log) :
  let url := moviesUrl env (Sitemap.page v) in
  (exists err, faults moviesApi url err
               /\ Sitemap.loop_body env moviesApi v log = (Throws err, (log ++ [url])%list))
  \/ (exists e, answers moviesApi url e /\ stops e
                /\ Sitemap.loop_body env moviesApi v log
                   = (Returns {| Sitemap.allMovies := (Sitemap.allMovies v ++ page_data e)%list;
                                 Sitemap.page := Sitemap.page v;
                                 Sitemap.hasMore := false |}, (log ++ [url])%list))
  \/ (exists e, answers moviesApi url e /\ ~ stops e
                /\ Sitemap.loop_body env moviesApi v log
                   = (Returns {| Sitemap.allMovies := (Sitemap.allMovies v ++ data_of e)%list;
                                 Sitemap.page := Sitemap.page v + 1;
                                 Sitemap.hasMore := Sitemap.hasMore v |}, (log ++ [url])%list)).
Proof.
  intros url. subst url.
  destruct (moviesApi (moviesUrl env (Sitemap.page v))) as [err|[st [err|e]]] eqn:Hapi.
  - left. exists err.
    assert (Hf : faults moviesApi (moviesUrl env (Sitemap.page v)) err) by now left.
    split; [exact Hf|]. now apply turn_faults.
  - left. exists err.
    assert (Hf : faults moviesApi (moviesUrl env (Sitemap.page v)) err)
      by (right; now exists st).
    split; [exact Hf|]. now apply turn_faults.
  - assert (Ha : answers moviesApi (moviesUrl env (Sitemap.page v)) e) by now exists st.
    destruct (stops_dec e) as [Hs|Hs].
    + right; left. exists e. repeat split; try assumption. now apply turn_stops.
    + right; right. exists e. repeat split; try assumption. now apply turn_continues.
Qed.

(** Whatever the endpoint does, the loop asks for the pages from its page
    counter on, one after the other. *)
Lemma loop_requests (fuel : nat) :
  forall (v : Sitemap.LoopVars) (log : Log),
    Sitemap.hasMore v = true ->
    exists n c,
      while fuel Sitemap.hasMore (Sitemap.loop_body env moviesApi) v log
      = (c, (log ++ map (moviesUrl env) (seq (Sitemap.page v) n))%list)
      /\ n <= fuel
      /\ forall v', c = Returns v' ->
                    Sitemap.hasMore v' = false /\ Sitemap.page v' + 1 = Sitemap.page v + n.
Proof.
  induction fuel as [|fuel IH]; intros v log Hmore.
  - exists 0, OutOfFuel. cbn [while seq map]. rewrite app_nil_r.
    repeat split; [lia|discriminate|discriminate].
  - cbn [while]. rewrite Hmore. unfold bind.
    destruct (turn_outcome v log)
      as [(err & _ & Hturn)|[(e & _ & _ & Hturn)|(e & _ & _ & Hturn)]];
      rewrite Hturn.
    + exists 1, (Throws err). cbn [seq map]. repeat split; [lia|discriminate|discriminate].
    + destruct fuel as [|fuel].
      * exists 1, OutOfFuel. cbn [while seq map].
        repeat split; [lia|discriminate|discriminate].
      * exists 1. eexists. cbn [while Sitemap.hasMore seq map]. split; [reflexivity|].
        split; [lia|]. intros v' Hv'. injection Hv' as <-. cbn. split; [reflexivity|lia].
    + destruct (IH {| Sitemap.allMovies := (Sitemap.allMovies v ++ data_of e)%list;
                      Sitemap.page := Sitemap.page v + 1;
                      Sitemap.hasMore := Sitemap.hasMore v |}
                   (log ++ [moviesUrl env (Sitemap.page v)])%list Hmore)
        as (n & c & Hrun & Hn & Hret).
      exists (Datatypes.S n), c. cbn [Sitemap.page] in *. rewrite Hrun.
      split; [|split; [lia|]].
      * rewrite <- app_assoc. cbn [seq map app].
        replace (Sitemap.page v + 1) with (Datatypes.S (Sitemap.page v)) by lia. reflexivity.
      * intros v' Hv'. destruct (Hret v' Hv') as [H1 H2]. split; [exact H1|lia].
Qed.

(** A loop that returns has met its first stop page, and only then. *)
Lemma loop_returns_at_first_stop (fuel : nat) :
  forall (v v' : Sitemap.LoopVars) (log log' : Log),
    Sitemap.hasMore v = true ->
    while fuel Sitemap.hasMore (Sitemap.loop_body env moviesApi) v log = (Returns v', log') ->
    let ep := served_page env moviesApi in
    Sitemap.page v <= Sitemap.page v'
    /\ (forall p, Sitemap.page v <= p <= Sitemap.page v' ->
                  answers moviesApi (moviesUrl env p) (ep p))
    /\ (forall p, Sitemap.page v <= p < Sitemap.page v' -> ~ stops (ep p))
    /\ stops (ep (Sitemap.page v')).
Proof.
  induction fuel as [|fuel IH]; intros v v' log log' Hmore Hrun ep; [discriminate|].
  cbn [while] in Hrun. rewrite Hmore in Hrun. unfold bind in Hrun.
  assert (Hep : forall e, answers moviesApi (moviesUrl env (Sitemap.page v)) e ->
                          ep (Sitemap.page v) = e).
  { intros e [st He]. unfold ep, served_page. now rewrite He. }
  destruct (turn_outcome v log)
    as [(err & _ & Hturn)|[(e & Ha & Hs & Hturn)|(e & Ha & Hs & Hturn)]];
    rewrite Hturn in Hrun; [discriminate| |].
  - destruct fuel as [|fuel]; [discriminate|].
    cbn [while Sitemap.hasMore] in Hrun. injection Hrun as <- <-. cbn [Sitemap.page].
    split; [lia|]. split; [|split].
    + intros p Hp. replace p with (Sitemap.page v) by lia. now rewrite (Hep e Ha).
    + intros p Hp. lia.
    + now rewrite (Hep e Ha).
  - apply IH in Hrun; [|exact Hmore]. cbn [Sitemap.page] in Hrun.
    destruct Hrun as (Hle & Hans & Hgo & Hstop).
    split; [lia|]. split; [|split; [|exact Hstop]].
    + intros p Hp. destruct (Nat.eq_dec p (Sitemap.page v)) as [->|Hne].
      * now rewrite (Hep e Ha).
      * apply Hans. lia.
    + intros p Hp. destruct (Nat.eq_dec p (Sitemap.page v)) as [->|Hne].
      * now rewrite (Hep e Ha).
      * apply Hgo. lia.
Qed.

Lemma turn_same (other : string -> FetchResult (APIResponse (list Movie)))
    (v : Sitemap.LoopVars) (log : Log) :
  same_bodies moviesApi other ->
  Sitemap.loop_body env moviesApi v log = Sitemap.loop_body env other v log.
Proof.
  intros Hsame. unfold Sitemap.loop_body.
  set (url := Sitemap.API_BASE env ++ _).
  specialize (Hsame url). unfold bind, fetch, json, settle.
  destruct (moviesApi url) as [e|r], (other url) as [e'|r']; try contradiction.
  - now subst.
  - now rewrite Hsame.
Qed.

End LoopOutcomes.

(** ** The request URLs *)

Section UrlFacts.

Import SitemapSpec.

Lemma append_cancel_l (a x y : string) : a ++ x = a ++ y -> x = y.
Proof.
  induction a as [|c a IH]; [trivial|].
  cbn [append]. intros H. injection H as H. now apply IH.
Qed.

Lemma append_cancel_r (t : string) : forall s s', s ++ t = s' ++ t -> s = s'.
Proof.
  induction s as [|c s IH]; intros [|c' s'] H.
  - reflexivity.
  - exfalso. apply (f_equal String.length) in H.
    cbn [append String.length] in H. rewrite length_append in H. lia.
  - exfalso. apply (f_equal String.length) in H.
    cbn [append String.length] in H. rewrite length_append in H. lia.
  - cbn [append] in H. injection H as -> H. f_equal. now apply IH.
Qed.

Lemma to_uint_nonnil (n : nat) : Nat.to_uint n <> Decimal.Nil.
Proof.
  rewrite <- (DecimalNat.Unsigned.of_to n) at 1.
  rewrite DecimalNat.Unsigned.to_of. apply DecimalFacts.unorm_nonnil.
Qed.

Lemma string_of_nat_injective (n m : nat) : string_of_nat n = string_of_nat m -> n = m.
Proof.
  unfold string_of_nat. intros H.
  apply DecimalNat.Unsigned.to_uint_inj.
  apply (f_equal NilZero.uint_of_string) in H.
  rewrite !NilZero.usu in H by apply to_uint_nonnil.
  now injection H.
Qed.

Lemma to_lu_of_nat (n : nat) :
  DecimalNat.Unsigned.to_lu n = DecimalPos.Unsigned.to_lu (N.of_nat n).
Proof.
  induction n as [|n IH]; [reflexivity|].
  rewrite Nnat.Nat2N.inj_succ, DecimalPos.Unsigned.to_lu_succ, <- IH. reflexivity.
Qed.

(** A page counter and the same number passed as an argument print alike. *)
Lemma string_of_Z_of_nat (n : nat) : string_of_Z (Z.of_nat n) = string_of_nat n.
Proof.
  unfold string_of_Z, string_of_nat, NilZero.string_of_int. f_equal.
  rewrite DecimalNat.Unsigned.to_uint_alt, to_lu_of_nat.
  destruct n as [|n]; [reflexivity|]. reflexivity.
Qed.

Lemma moviesUrl_injective (env : Env) (p q : nat) :
  moviesUrl env p = moviesUrl env q -> p = q.
Proof.
  unfold moviesUrl. intros H.
  apply append_cancel_l in H. apply (append_cancel_l "/movies?page=") in H.
  apply append_cancel_r in H. now apply string_of_nat_injective.
Qed.

Lemma categoriesUrl_is_no_page (env : Env) (p : nat) : categoriesUrl env <> moviesUrl env p.
Proof.
  unfold categoriesUrl, moviesUrl. intros H. apply append_cancel_l in H. discriminate.
Qed.

Lemma requests_distinct (env : Env) (n : nat) (tail : list string) :
  tail = [] \/ tail = [categoriesUrl env] ->
  NoDup (map (moviesUrl env) (seq 1 n) ++ tail).
Proof.
  intros Htail.
  assert (Hpages : NoDup (map (moviesUrl env) (seq 1 n))).
  { apply Finite.Injective_map_NoDup; [|apply seq_NoDup].
    intros p q. apply moviesUrl_injective. }
  destruct Htail as [->| ->]; [now rewrite app_nil_r|].
  apply NoDup_app; [exact Hpages|repeat constructor; intros []|].
  intros url Hin [<-|[]]. apply in_map_iff in Hin. destruct Hin as (p & Hp & _).
  now apply (categoriesUrl_is_no_page env p).
Qed.

End UrlFacts.

(** ** The endpoint under every behaviour of the upstream API *)

Section EndpointFacts.

Import SitemapSpec Behaviour.

Variable env : Env.
Variable moviesApi : string -> FetchResult (APIResponse (list Movie)).
Variable categoriesApi : string -> FetchResult (APIResponse (list Category)).
Variable now : string.

Let start : Sitemap.LoopVars :=
  {| Sitemap.allMovies := []; Sitemap.page := 1; Sitemap.hasMore := true |}.

(** [GET] sends no request of its own. *)
Lemma GET_log (fuel : nat) (log : Log) :
  snd (Sitemap.GET env moviesApi categoriesApi now fuel log)
  = snd (Sitemap.fetchSitemapData env moviesApi categoriesApi fuel log).
Proof.
  unfold Sitemap.GET, bind at 1.
  destruct (Sitemap.fetchSitemapData env moviesApi categoriesApi fuel log) as [[d|e|] l];
    try reflexivity.
  cbn [snd]. destruct (Sitemap.categories d); reflexivity.
Qed.

Lemma fetchSitemapData_requests (fuel : nat) (log : Log) :
  exists (n : nat) (tail : list string),
    snd (Sitemap.fetchSitemapData env moviesApi categoriesApi fuel log)
    = (log ++ map (moviesUrl env) (seq 1 n) ++ tail)%list
    /\ n <= fuel
    /\ (tail = [] \/ tail = [categoriesUrl env]).
Proof.
  destruct (loop_requests env moviesApi fuel start log eq_refl) as (n & c & Hrun & Hn & _).
  exists n. unfold Sitemap.fetchSitemapData, try_catch, bind at 1.
  unfold Sitemap.fetchAllMovies. fold start. rewrite Hrun. cbn [Sitemap.page start].
  destruct c as [v|e|].
  - exists [categoriesUrl env]. split; [|split; [exact Hn|now right]].
    unfold bind, fetch, json, settle. fold (categoriesUrl env).
    rewrite <- app_assoc.
    destruct (categoriesApi (categoriesUrl env)) as [err|[st [err|j]]]; reflexivity.
  - exists []. rewrite app_nil_r. split; [reflexivity|split; [exact Hn|now left]].
  - exists []. rewrite app_nil_r. split; [reflexivity|split; [exact Hn|now left]].
Qed.

(** Whatever the upstream API does, the requests of one [GET] are the movie
    pages 1, 2, ..., n in this order, with no page left out, followed by at
    most one request for the categories; no URL is requested twice. *)
Theorem requests_are_consecutive_pages (fuel : nat) (log : Log) :
  exists (n : nat) (tail : list string),
    snd (Sitemap.GET env moviesApi categoriesApi now fuel log)
    = (log ++ map (moviesUrl env) (seq 1 n) ++ tail)%list
    /\ n <= fuel
    /\ (tail = [] \/ tail = [categoriesUrl env])
    /\ NoDup (map (moviesUrl env) (seq 1 n) ++ tail).
Proof.
  rewrite GET_log.
  destruct (fetchSitemapData_requests fuel log) as (n & tail & Hlog & Hn & Htail).
  exists n, tail. repeat split; try assumption. now apply requests_distinct.
Qed.

(** The converse of exhaustive aggregation: when the loop returns, the page
    it stands on is the first stop page of the endpoint, every page up to it
    was answered with a parsed body, the loop is over, and the result is the
    data of exactly these pages, after exactly these requests. *)
Theorem aggregation_returns_only_at_first_stop (fuel : nat) (log log' : Log)
    (v : Sitemap.LoopVars) :
  Sitemap.fetchAllMovies env moviesApi fuel log = (Returns v, log') ->
  let ep := served_page env moviesApi in
  1 <= Sitemap.page v
  /\ (forall p, 1 <= p <= Sitemap.page v -> answers moviesApi (moviesUrl env p) (ep p))
  /\ (forall p, 1 <= p < Sitemap.page v -> ~ stops (ep p))
  /\ stops (ep (Sitemap.page v))
  /\ Sitemap.hasMore v = false
  /\ Sitemap.allMovies v = flat_map (fun p => page_data (ep p)) (seq 1 (Sitemap.page v))
  /\ log' = (log ++ map (moviesUrl env) (seq 1 (Sitemap.page v)))%list.
Proof.
  intros Hrun ep.
  destruct (loop_returns_at_first_stop env moviesApi fuel start v log log' eq_refl Hrun)
    as (Hle & Hans & Hgo & Hstop).
  cbn [Sitemap.page start] in *. fold ep in Hans, Hgo, Hstop.
  assert (Hbig : Sitemap.fetchAllMovies env moviesApi (fuel + Sitemap.page v + 1) log
                 = (Returns v, log')).
  { apply (while_more_fuel _ _ fuel); [exact Hrun|discriminate|lia]. }
  rewrite (aggregation_to_first_stop env moviesApi ep (Sitemap.page v) Hle Hans Hgo Hstop)
    in Hbig by lia.
  injection Hbig as Hv Hlog.
  assert (Hall := f_equal Sitemap.allMovies Hv). assert (Hmore := f_equal Sitemap.hasMore Hv).
  cbn [Sitemap.hasMore Sitemap.allMovies] in Hall, Hmore.
  repeat split; try assumption; now symmetry.
Qed.

(** [GET] never looks at the status of a response: two upstream APIs that
    reject the same requests and send the same bodies, under whatever
    status, get the same result and the same requests. *)
Theorem GET_never_reads_the_status
    (moviesApi' : string -> FetchResult (APIResponse (list Movie)))
    (categoriesApi' : string -> FetchResult (APIResponse (list Category))) :
  same_bodies moviesApi moviesApi' ->
  same_bodies categoriesApi categoriesApi' ->
  forall (fuel : nat) (log : Log),
    Sitemap.GET env moviesApi categoriesApi now fuel log
    = Sitemap.GET env moviesApi' categoriesApi' now fuel log.
Proof.
  intros Hm Hc fuel log.
  assert (Hdata : Sitemap.fetchSitemapData env moviesApi categoriesApi fuel log
                  = Sitemap.fetchSitemapData env moviesApi' categoriesApi' fuel log).
  { assert (Hloop : Sitemap.fetchAllMovies env moviesApi fuel log
                    = Sitemap.fetchAllMovies env moviesApi' fuel log)
      by apply (while_ext _ _ _ (fun v l => turn_same env moviesApi moviesApi' v l Hm)).
    unfold Sitemap.fetchSitemapData, try_catch, bind, fetch, json, settle.
    rewrite Hloop.
    destruct (Sitemap.fetchAllMovies env moviesApi' fuel log) as [[v|e|] l]; try reflexivity.
    specialize (Hc (Sitemap.API_BASE env ++ "/categories")).
    destruct (categoriesApi (Sitemap.API_BASE env ++ "/categories")) as [e|r],
             (categoriesApi' (Sitemap.API_BASE env ++ "/categories")) as [e'|r'];
      try contradiction.
    - now subst.
    - now rewrite Hc. }
  unfold Sitemap.GET, bind. now rewrite Hdata.
Qed.

(** What [GET] returns is never anything but a document: the reply has
    status 200 and the two headers, and its body is the document of the
    entries of the lists that [fetchSitemapData] returned, the category list
    being present. *)
Theorem GET_returns_only_documents (fuel : nat) (log log' : Log)
    (reply : Sitemap.HttpReply) :
  Sitemap.GET env moviesApi categoriesApi now fuel log = (Returns reply, log') ->
  exists (cs : list Category) (ms : list Movie),
    Sitemap.fetchSitemapData env moviesApi categoriesApi fuel log
    = (Returns {| Sitemap.movies := ms; Sitemap.categories := Some cs |}, log')
    /\ reply = served (document now (entries env cs ms)).
Proof.
  intros Hrun.
  destruct (Sitemap.fetchSitemapData env moviesApi categoriesApi fuel log)
    as [[[ms [cs|]]|e|] l] eqn:Hdata.
  - rewrite (GET_renders env moviesApi categoriesApi now fuel log l ms cs Hdata) in Hrun.
    injection Hrun as <- <-. now exists cs, ms.
  - unfold Sitemap.GET, bind at 1 in Hrun. rewrite Hdata in Hrun. discriminate.
  - unfold Sitemap.GET, bind at 1 in Hrun. rewrite Hdata in Hrun. discriminate.
  - unfold Sitemap.GET, bind at 1 in Hrun. rewrite Hdata in Hrun. discriminate.
Qed.

(** For upstream bodies of the shape that the interfaces of [api.ts]
    declare (an envelope whose [data] is a list or absent, movies with a
    title and a slug), which are the bodies of this embedding: [GET] throws
    in one situation only, and with one error only. The loop over the movie
    pages has returned, and the category request is answered with a body
    that parses to an envelope with [success] true and no [data]; the error
    is then the [TypeError] of [categories.forEach]. A rejected request or a
    body that is not JSON never reaches the caller of [GET]. *)
Theorem GET_throws_exactly_without_category_data (fuel : nat) (log : Log) (err : thrown) :
  (exists log', Sitemap.GET env moviesApi categoriesApi now fuel log = (Throws err, log'))
  <-> (err = Sitemap.TypeError_undefined "forEach"
       /\ (exists v log1, Sitemap.fetchAllMovies env moviesApi fuel log = (Returns v, log1))
       /\ exists c, answers categoriesApi (categoriesUrl env) c
                    /\ success c = true /\ data c = None).
Proof.
  split.
  - intros [log' Hrun]. unfold Sitemap.GET, bind at 1 in Hrun.
    destruct (Sitemap.fetchSitemapData env moviesApi categoriesApi fuel log)
      as [[[ms [cs|]]|e|] l] eqn:Hdata; cbn [Sitemap.categories] in Hrun.
    + discriminate.
    + unfold bind, throw in Hrun. injection Hrun as <- <-. split; [reflexivity|].
      unfold Sitemap.fetchSitemapData, try_catch, bind at 1 in Hdata.
      destruct (Sitemap.fetchAllMovies env moviesApi fuel log) as [[v|e|] l1] eqn:Hloop;
        [|discriminate|discriminate].
      split; [now exists v, l1|].
      unfold bind, fetch, json, settle in Hdata. fold (categoriesUrl env) in Hdata.
      destruct (categoriesApi (categoriesUrl env)) as [e|[st [e|c]]] eqn:Hcat;
        try discriminate.
      cbn in Hdata. exists c. split; [now exists st|].
      destruct (success c); [|discriminate]. split; [reflexivity|].
      now injection Hdata.
    + exfalso.
      now apply (fetchSitemapData_never_throws env moviesApi categoriesApi fuel log e l).
    + discriminate.
  - intros (-> & (v & log1 & Hloop) & c & Hans & Hok & Hno).
    exists (log1 ++ [categoriesUrl env])%list.
    unfold Sitemap.GET, bind at 1.
    rewrite (sitemap_data_of_answers env moviesApi categoriesApi fuel log log1 v c Hloop Hans).
    rewrite Hok, Hno. reflexivity.
Qed.

(** One turn of the loop is a call of the client's [getMovies] with the
    page counter and the limit 500, followed by the assignments of the
    turn: the endpoint builds the same request by hand. *)
Theorem loop_turn_is_getMovies (v : Sitemap.LoopVars) (log : Log) :
  Sitemap.loop_body env moviesApi v log
  = (moviesData <- Api.getMovies env _ moviesApi
                     (Some (Z.of_nat (Sitemap.page v))) (Some 500%Z) ;;
     ret (after_page v moviesData)) log.
Proof.
  unfold Sitemap.loop_body, Api.getMovies, Api.defaulting, bind, fetch, json, settle.
  rewrite string_of_Z_of_nat.
  change (Api.API_BASE env) with (Sitemap.API_BASE env).
  change (string_of_Z 500) with (string_of_nat Sitemap.limit).
  destruct (moviesApi _) as [err|[st [err|e]]]; try reflexivity.
  cbn [body ret throw]. unfold after_page, goes_on, page_data, data_of, next_of.
  destruct (success e); cbn [andb]; [|now rewrite app_nil_r].
  destruct (data e) as [[|m d]|]; cbn; rewrite ?app_nil_r; try reflexivity.
  destruct (pagination e) as [p|]; [|reflexivity].
  destruct (hasNextPage p); reflexivity.
Qed.

End EndpointFacts.

(** ** The site URL and the date *)

Section ConfigurationFacts.

Import SitemapSpec.

Variable moviesApi : string -> FetchResult (APIResponse (list Movie)).
Variable categoriesApi : string -> FetchResult (APIResponse (list Category)).

Lemma strip_added_slash (u : string) : strip_trailing_slash (u ++ "/") = u.
Proof.
  induction u as [|c u IH]; [reflexivity|].
  cbn [append strip_trailing_slash]. rewrite IH.
  destruct u; reflexivity.
Qed.

Lemma before_first_separator (sep : ascii) (d t : string) :
  ~ occurs sep d -> before_first sep (d ++ String sep t) = d.
Proof.
  induction d as [|c d IH]; intros Hd; cbn [append before_first].
  - now rewrite Ascii.eqb_refl.
  - cbn [occurs] in Hd. destruct (Ascii.eqb_spec c sep) as [->|Hne]; [tauto|].
    rewrite IH; tauto.
Qed.

(** A site URL configured with a slash at its end gives the same reply as
    the same URL configured without it. *)
Theorem trailing_slash_is_dropped (api : option string) (u now : string)
    (fuel : nat) (log : Log) :
  u <> EmptyString ->
  strip_trailing_slash u = u ->
  Sitemap.GET {| PUBLIC_API_URL := api; PUBLIC_SITE_URL := Some (u ++ "/") |}
    moviesApi categoriesApi now fuel log
  = Sitemap.GET {| PUBLIC_API_URL := api; PUBLIC_SITE_URL := Some u |}
      moviesApi categoriesApi now fuel log.
Proof.
  intros Hne Hu. unfold Sitemap.GET. cbn [PUBLIC_SITE_URL].
  assert (H1 : or_else (Some (u ++ "/")) "https://filmyfly.work" = u ++ "/")
    by (destruct u; [contradiction|reflexivity]).
  assert (H2 : or_else (Some u) "https://filmyfly.work" = u)
    by (destruct u; [contradiction|reflexivity]).
  rewrite H1, H2, strip_added_slash, Hu. reflexivity.
Qed.

(** Of the time stamp, [GET] uses what stands before the first [T], the
    day: two calls on the same day give the same reply. *)
Theorem document_depends_on_the_day_only (env : Env) (day time time' : string)
    (fuel : nat) (log : Log) :
  ~ occurs "T" day ->
  Sitemap.GET env moviesApi categoriesApi (day ++ String "T" time) fuel log
  = Sitemap.GET env moviesApi categoriesApi (day ++ String "T" time') fuel log.
Proof.
  intros Hday. unfold Sitemap.GET. now rewrite !before_first_separator.
Qed.

End ConfigurationFacts.

(** ** [searchMovies] under every behaviour of the upstream API *)

Section SearchFacts.

Variable env : Env.
Variable J : Type.
Variable remote : string -> FetchResult J.
Variable encodeURIComponent : string -> thrown + string.

Let searchUrl (q : string) (page limit : option Z) : string :=
  Api.API_BASE env ++ "/search?q=" ++ q
  ++ "&page=" ++ string_of_Z (Api.defaulting page 1)
  ++ "&limit=" ++ string_of_Z (Api.defaulting limit 20).

(** [searchMovies] hands on a parsed body in one case only: the query can
    be encoded, the request is answered with a status from 200 to 299, and
    the body is JSON. What it returns is then this body. *)
Theorem searchMovies_parses_exactly_ok_responses
    (query : string) (page limit : option Z) (log : Log) (j : J) :
  (exists log', Api.searchMovies env J remote encodeURIComponent query page limit log
                = (Returns (Api.Parsed j), log'))
  <-> exists q st,
        encodeURIComponent query = inr q
        /\ remote (searchUrl q page limit) = Resolves {| status := st; body := inr j |}
        /\ 200 <= st <= 299.
Proof.
  unfold Api.searchMovies, try_catch, bind, settle, fetch, json, settle, throw, ret. split.
  - intros [log' Hrun].
    destruct (encodeURIComponent query) as [e|q]; [discriminate|].
    fold (searchUrl q page limit) in Hrun.
    destruct (remote (searchUrl q page limit)) as [e|[st b]] eqn:Hremote; [discriminate|].
    destruct (ok {| status := st; body := b |}) eqn:Hok; cbn [negb body] in Hrun;
      [|discriminate].
    destruct b as [e|j']; [discriminate|].
    injection Hrun as -> _. exists q, st.
    unfold ok in Hok. cbn [status] in Hok. apply andb_prop in Hok. destruct Hok as [H1 H2].
    apply Nat.leb_le in H1, H2. repeat split; assumption || reflexivity.
  - intros (q & st & Hq & Hremote & Hst).
    rewrite Hq. fold (searchUrl q page limit). rewrite Hremote.
    assert (Hok : ok {| status := st; body := inr j |} = true).
    { unfold ok. cbn [status]. apply andb_true_intro. split; apply Nat.leb_le; lia. }
    rewrite Hok. cbn. eexists. reflexivity.
Qed.

(** [searchMovies] sends at most one request: none when the query cannot be
    encoded, and otherwise the search request alone, whatever comes back. *)
Theorem searchMovies_requests_at_most_once
    (query : string) (page limit : option Z) (log : Log) :
  match encodeURIComponent query with
  | inl _ =>
      snd (Api.searchMovies env J remote encodeURIComponent query page limit log) = log
  | inr q =>
      snd (Api.searchMovies env J remote encodeURIComponent query page limit log)
      = (log ++ [searchUrl q page limit])%list
  end.
Proof.
  unfold Api.searchMovies, try_catch, bind, settle, fetch, json, settle.
  destruct (encodeURIComponent query) as [e|q]; cbn [throw ret]; [reflexivity|].
  fold (searchUrl q page limit).
  destruct (remote (searchUrl q page limit)) as [e|r]; cbn [throw ret]; [reflexivity|].
  destruct (ok r); cbn [negb throw ret]; [|reflexivity].
  destruct (body r); reflexivity.
Qed.

End SearchFacts.

(** ** The further properties on concrete answers *)

Lemma escapeXml_injective_witness :
  Sitemap.escapeXml "&" <> Sitemap.escapeXml "&amp;".
Proof. apply escapeXml_injective. discriminate. Defined.

Lemma aggregation_returns_only_at_first_stop_witness :
  let ep := Behaviour.served_page Backend.env0
              (Backend.movies_api (Backend.paged (Backend.catalog 3) 2) 2) in
  ~ SitemapSpec.stops (ep 1) /\ SitemapSpec.stops (ep 2)
  /\ Backend.catalog 3 = flat_map (fun p => SitemapSpec.page_data (ep p)) (seq 1 2).
Proof.
  intros ep.
  assert (Hrun : Sitemap.fetchAllMovies Backend.env0
                   (Backend.movies_api (Backend.paged (Backend.catalog 3) 2) 2) 3 []
                 = (Returns {| Sitemap.allMovies := Backend.catalog 3; Sitemap.page := 2;
                               Sitemap.hasMore := false |},
                    map (SitemapSpec.moviesUrl Backend.env0) [1; 2]))
    by (vm_compute; reflexivity).
  destruct (aggregation_returns_only_at_first_stop Backend.env0 _ 3 [] _ _ Hrun)
    as (_ & _ & Hgo & Hstop & _ & Hall & _).
  split; [apply Hgo; cbn; lia|]. split; [exact Hstop|exact Hall].
Defined.

Lemma GET_never_reads_the_status_witness :
  Sitemap.GET Backend.env0
    (fun _ => Backend.replies 200
                (Backend.envelope true (Some [Backend.movie 1 None]) (Some false)))
    (fun _ => Backend.replies 200 (Backend.envelope true (Some []) None))
    Backend.noon 2 []
  = Sitemap.GET Backend.env0
      (fun _ => Backend.replies 503
                  (Backend.envelope true (Some [Backend.movie 1 None]) (Some false)))
      (fun _ => Backend.replies 404 (Backend.envelope true (Some []) None))
      Backend.noon 2 [].
Proof.
  apply GET_never_reads_the_status; intros url; reflexivity.
Defined.

Lemma GET_returns_only_documents_witness :
  exists (cs : list Category) (ms : list Movie),
    Sitemap.fetchSitemapData Backend.env0
      (Backend.movies_api (Backend.paged (Backend.catalog 3) 2) 2)
      (Backend.categories_api
         (Backend.replies 200
            (Backend.envelope true (Some [Backend.genre_category 7 "action"]) None)))
      3 []
    = (Returns {| Sitemap.movies := ms; Sitemap.categories := Some cs |},
       [SitemapSpec.moviesUrl Backend.env0 1; SitemapSpec.moviesUrl Backend.env0 2;
        SitemapSpec.categoriesUrl Backend.env0])
    /\ SitemapSpec.served
         (SitemapSpec.document Backend.noon
            (SitemapSpec.entries Backend.env0 [Backend.genre_category 7 "action"]
               (Backend.catalog 3)))
       = SitemapSpec.served
           (SitemapSpec.document Backend.noon (SitemapSpec.entries Backend.env0 cs ms)).
Proof.
  apply (GET_returns_only_documents Backend.env0 _ _ Backend.noon 3 []).
  vm_compute. reflexivity.
Defined.

Lemma trailing_slash_is_dropped_witness :
  Sitemap.GET {| PUBLIC_API_URL := None; PUBLIC_SITE_URL := Some "https://example.org/" |}
    (Backend.movies_api (Backend.paged (Backend.catalog 3) 2) 2)
    (Backend.categories_api (Backend.replies 200 (Backend.envelope true (Some []) None)))
    Backend.noon 3 []
  = Sitemap.GET {| PUBLIC_API_URL := None; PUBLIC_SITE_URL := Some "https://example.org" |}
      (Backend.movies_api (Backend.paged (Backend.catalog 3) 2) 2)
      (Backend.categories_api (Backend.replies 200 (Backend.envelope true (Some []) None)))
      Backend.noon 3 [].
Proof.
  apply (trailing_slash_is_dropped _ _ None "https://example.org").
  - discriminate.
  - reflexivity.
Defined.

Lemma document_depends_on_the_day_only_witness :
  Sitemap.GET Backend.env0
    (Backend.movies_api (Backend.paged (Backend.catalog 3) 2) 2)
    (Backend.categories_api (Backend.replies 200 (Backend.envelope true (Some []) None)))
    "2026-11-02T00:00:00.000Z" 3 []
  = Sitemap.GET Backend.env0
      (Backend.movies_api (Backend.paged (Backend.catalog 3) 2) 2)
      (Backend.categories_api (Backend.replies 200 (Backend.envelope true (Some []) None)))
      "2026-11-02T23:59:59.999Z" 3 [].
Proof.
  apply (document_depends_on_the_day_only _ _ Backend.env0
           "2026-11-02" "00:00:00.000Z" "23:59:59.999Z").
  cbn. intuition discriminate.
Defined.
